(** * pgvector-cpp: bit-vector and half-vector distance kernels

    A shallow embedding of [src_cpp/bitutils.cpp], [src_cpp/halfutils.hpp]
    and [src_cpp/halfutils.cpp], and the properties of the kernels, the
    half-precision codec and the dispatcher that the specification states.

    Conventions of the embedding.
    - Unsigned machine integers ([uint32_t], [uint64_t], [unsigned char])
      are values of [N]; an assignment that can leave the range of its type
      is wrapped explicitly ([wrap64]).  Signed and mixed arithmetic of the
      codec is done in [Z].
    - A pointer into a byte buffer is the list of the bytes from the pointer
      on; advancing the pointer drops bytes from the front.  Reading past
      the end of a buffer (undefined in C++) reads zero bytes.
    - [float] and [double] are IEEE 754 binary32 and binary64 values, with
      the operations of the standard library's [SpecFloat] at precision
      24 and 53; a [float] whose bytes are inspected is its bit pattern.
    - A thrown exception is the [Throw] outcome of a computation. *)

From Stdlib Require Import NArith ZArith List Lia Bool.
From Stdlib Require String.
Import String.StringSyntax.
From Stdlib Require Import Strings.Byte.
From Stdlib Require Import Floats.SpecFloat.
From Equations Require Import Equations.
Import ListNotations.

Local Open Scope N_scope.

(** ** Machine integers *)

Definition wrap64 (n : N) : N := n mod 2 ^ 64.

(** The test of a [while (a >= b)] loop, with its evidence. *)
Definition uint_ge (a b : N) : {b <= a} + {a < b} :=
  match N.leb b a as c return N.leb b a = c -> {b <= a} + {a < b} with
  | true => fun H => left (proj1 (N.leb_le b a) H)
  | false => fun H => right (proj1 (N.leb_gt b a) H)
  end eq_refl.

(** ** binary64 values: the [double] results of the Jaccard kernels *)

Module Double.
Definition double := spec_float.
Definition prec : Z := 53.
Definition emax : Z := 1024.

Definition zero : double := S754_zero false.
Definition one : double := S754_finite false 4503599627370496 (-52).

(** [(double)n] for an unsigned integer [n]: round to nearest, ties to even. *)
Definition of_uint (n : N) : double := binary_normalize prec emax (Z.of_N n) 0 false.

Definition sub (x y : double) : double := SFsub prec emax x y.
Definition div (x y : double) : double := SFdiv prec emax x y.
End Double.

(** ** Scalar bit-vector kernels ([bitutils.cpp], anonymous namespace) *)

(** The number of set bits of a binary number: the reference the kernels
    are measured against. *)
Fixpoint Pos_popcount (p : positive) : N :=
  match p with
  | xH => 1
  | xO q => Pos_popcount q
  | xI q => 1 + Pos_popcount q
  end.

Definition N_popcount (n : N) : N :=
  match n with
  | N0 => 0
  | Npos p => Pos_popcount p
  end.

Lemma N_popcount_double (n : N) : N_popcount (Pos.Ndouble n) = N_popcount n.
Proof. destruct n; reflexivity. Qed.

Lemma Pos_land_diag (p : positive) : Pos.land p p = Npos p.
Proof. exact (N.land_diag (Npos p)). Qed.

(** Clearing the lowest set bit removes exactly one set bit. *)
Lemma popcount_clear_lowest (p : positive) :
  N_popcount (N.land (Npos p) (Npos p - 1)) + 1 = N_popcount (Npos p).
Proof.
  replace (Npos p - 1) with (Pos.pred_N p) by (destruct p; reflexivity).
  induction p as [q IH | q IH | ].
  - cbn [Pos.pred_N N.land Pos.land]. rewrite Pos_land_diag.
    cbn [Pos.Ndouble N_popcount Pos_popcount]. lia.
  - replace (N.land (Npos q~0) (Pos.pred_N q~0))
      with (Pos.Ndouble (N.land (Npos q) (Pos.pred_N q)))
      by (destruct q; reflexivity).
    rewrite N_popcount_double. exact IH.
  - reflexivity.
Qed.

(** [popcount_u64]: the loop [while (x) { x &= x - 1; count++; }].
    Inside the loop [x] is not zero, so [x - 1] does not wrap.  The loop is
    accepted because the number of set bits of [x] decreases. *)
Equations? popcount_loop (x count : N) : N by wf (N.to_nat (N_popcount x)) lt :=
  popcount_loop N0 count := count;
  popcount_loop (Npos p) count :=
    popcount_loop (N.land (Npos p) (Npos p - 1)) (wrap64 (count + 1)).
Proof.
  change (N.to_nat (N_popcount (N.land (Npos p) (Npos p - 1)))
          < N.to_nat (N_popcount (Npos p)))%nat.
  rewrite <- (popcount_clear_lowest p). lia.
Qed.

Definition popcount_u64 (x : N) : N := popcount_loop x 0.

(** [*ax8]: the byte under the pointer. *)
Definition load8 (p : list byte) : N :=
  match p with
  | b :: _ => Byte.to_N b
  | [] => 0
  end.

(** The value of a byte sequence read as one little-endian unsigned integer. *)
Fixpoint le_combine (l : list byte) : N :=
  match l with
  | [] => 0
  | b :: t => N.lor (Byte.to_N b) (N.shiftl (le_combine t) 8)
  end.

(** [*ax64]: the eight bytes under the pointer, as a [uint64_t]. *)
Definition load64 (p : list byte) : N := le_combine (firstn 8 p).

(** The state of a kernel loop: bytes left, the two pointers, the accumulators. *)
Record hamming_state := HammingState {
  h_bytes : N; h_ax : list byte; h_bx : list byte; h_v : N }.

Record jaccard_state := JaccardState {
  j_bytes : N; j_ax : list byte; j_bx : list byte; j_and : N; j_or : N }.

(** First loop of [hamming_distance_default]: eight bytes at a time. *)
Equations? hamming_words (bytes : N) (ax64 bx64 : list byte) (v : N)
  : hamming_state by wf (N.to_nat bytes) lt :=
  hamming_words bytes ax64 bx64 v with uint_ge bytes 8 => {
    | left _ :=
        hamming_words (bytes - 8) (skipn 8 ax64) (skipn 8 bx64)
          (wrap64 (v + popcount_u64 (N.lxor (load64 ax64) (load64 bx64))));
    | right _ := HammingState bytes ax64 bx64 v }.
Proof. lia. Qed.

(** Second loop of [hamming_distance_default]: the remaining bytes. *)
Equations? hamming_tail (bytes : N) (ax8 bx8 : list byte) (v : N)
  : N by wf (N.to_nat bytes) lt :=
  hamming_tail bytes ax8 bx8 v with uint_ge bytes 1 => {
    | left _ :=
        hamming_tail (bytes - 1) (skipn 1 ax8) (skipn 1 bx8)
          (wrap64 (v + popcount_u64 (N.lxor (load8 ax8) (load8 bx8))));
    | right _ := v }.
Proof. lia. Qed.

Definition hamming_distance_default (bytes : N) (ax bx : list byte) (distance : N) : N :=
  let s := hamming_words bytes ax bx distance in
  hamming_tail (h_bytes s) (h_ax s) (h_bx s) (h_v s).

(** The two loops of [jaccard_distance_default]. *)
Equations? jaccard_words (bytes : N) (ax64 bx64 : list byte) (and_data or_data : N)
  : jaccard_state by wf (N.to_nat bytes) lt :=
  jaccard_words bytes ax64 bx64 and_data or_data with uint_ge bytes 8 => {
    | left _ :=
        jaccard_words (bytes - 8) (skipn 8 ax64) (skipn 8 bx64)
          (wrap64 (and_data + popcount_u64 (N.land (load64 ax64) (load64 bx64))))
          (wrap64 (or_data + popcount_u64 (N.lor (load64 ax64) (load64 bx64))));
    | right _ := JaccardState bytes ax64 bx64 and_data or_data }.
Proof. lia. Qed.

Equations? jaccard_tail (bytes : N) (ax8 bx8 : list byte) (and_data or_data : N)
  : N * N by wf (N.to_nat bytes) lt :=
  jaccard_tail bytes ax8 bx8 and_data or_data with uint_ge bytes 1 => {
    | left _ :=
        jaccard_tail (bytes - 1) (skipn 1 ax8) (skipn 1 bx8)
          (wrap64 (and_data + popcount_u64 (N.land (load8 ax8) (load8 bx8))))
          (wrap64 (or_data + popcount_u64 (N.lor (load8 ax8) (load8 bx8))));
    | right _ := (and_data, or_data) }.
Proof. lia. Qed.

(** The end of both Jaccard kernels: [0.0] for an empty union, else
    [1.0 - (double)and_data / (double)or_data]. *)
Definition jaccard_ratio (and_data or_data : N) : Double.double :=
  if N.eqb or_data 0 then Double.zero
  else Double.sub Double.one (Double.div (Double.of_uint and_data) (Double.of_uint or_data)).

Definition jaccard_distance_default (bytes : N) (ax bx : list byte) (ab aa bb : N)
  : Double.double :=
  let s := jaccard_words bytes ax bx ab 0 in
  let '(and_data, or_data) := jaccard_tail (j_bytes s) (j_ax s) (j_bx s) (j_and s) (j_or s) in
  jaccard_ratio and_data or_data.

(** ** AVX-512 kernels ([bitutils.cpp], under [__AVX512F__])

    A [__m512i] register is its eight 64-bit lanes, lowest first. *)

Definition m512i := list N.

Definition mm512_loadu_si512 (p : list byte) : m512i :=
  map (fun i => load64 (skipn (8 * i) p)) (seq 0 8).

Definition mm512_lanewise (op : N -> N -> N) (a b : m512i) : m512i :=
  map (fun xy => op (fst xy) (snd xy)) (combine a b).

Definition mm512_xor_si512 : m512i -> m512i -> m512i := mm512_lanewise N.lxor.
Definition mm512_and_si512 : m512i -> m512i -> m512i := mm512_lanewise N.land.
Definition mm512_or_si512 : m512i -> m512i -> m512i := mm512_lanewise N.lor.

Definition mm512_extracti64_epi64 (v : m512i) (i : nat) : N := nth i v 0.

(** The POPCNT instruction: the number of set bits of a 64-bit operand. *)
Definition mm_popcnt_u64 (x : N) : N := N_popcount x.

(** The body of the 64-byte loop of [hamming_distance_avx512_popcount]:
    load, XOR, and the inner [for] over the eight lanes. *)
Definition hamming_block (ax bx : list byte) (v : N) : N :=
  let a := mm512_loadu_si512 ax in
  let b := mm512_loadu_si512 bx in
  let xor_result := mm512_xor_si512 a b in
  fold_left
    (fun v i => wrap64 (v + mm_popcnt_u64 (mm512_extracti64_epi64 xor_result i)))
    (seq 0 8) v.

Opaque hamming_block.

(** The 64-byte loop of [hamming_distance_avx512_popcount]. *)
Equations? hamming_blocks (bytes : N) (ax bx : list byte) (v : N)
  : hamming_state by wf (N.to_nat bytes) lt :=
  hamming_blocks bytes ax bx v with uint_ge bytes 64 => {
    | left _ :=
        hamming_blocks (bytes - 64) (skipn 64 ax) (skipn 64 bx) (hamming_block ax bx v);
    | right _ := HammingState bytes ax bx v }.
Proof. lia. Qed.

Transparent hamming_block.

Definition hamming_distance_avx512_popcount
  (bytes : N) (ax bx : list byte) (distance : N) : N :=
  let s := hamming_blocks bytes ax bx distance in
  if N.ltb 0 (h_bytes s)
  then hamming_distance_default (h_bytes s) (h_ax s) (h_bx s) (h_v s)
  else h_v s.

(** The body of the 64-byte loop of [jaccard_distance_avx512_popcount]:
    load, AND and OR, and the inner [for] over the eight lanes. *)
Definition jaccard_block (ax bx : list byte) (and_data or_data : N) : N * N :=
  let a := mm512_loadu_si512 ax in
  let b := mm512_loadu_si512 bx in
  let and_result := mm512_and_si512 a b in
  let or_result := mm512_or_si512 a b in
  fold_left
    (fun c i =>
       (wrap64 (fst c + mm_popcnt_u64 (mm512_extracti64_epi64 and_result i)),
        wrap64 (snd c + mm_popcnt_u64 (mm512_extracti64_epi64 or_result i))))
    (seq 0 8) (and_data, or_data).

Opaque jaccard_block.

(** The 64-byte loop of [jaccard_distance_avx512_popcount]. *)
Equations? jaccard_blocks (bytes : N) (ax bx : list byte) (and_data or_data : N)
  : jaccard_state by wf (N.to_nat bytes) lt :=
  jaccard_blocks bytes ax bx and_data or_data with uint_ge bytes 64 => {
    | left _ :=
        jaccard_blocks (bytes - 64) (skipn 64 ax) (skipn 64 bx)
          (fst (jaccard_block ax bx and_data or_data))
          (snd (jaccard_block ax bx and_data or_data));
    | right _ := JaccardState bytes ax bx and_data or_data }.
Proof. lia. Qed.

Transparent jaccard_block.

(** After the blocks, a remainder is handed to [jaccard_distance_default]
    with the AND count so far as its seed; the OR count so far is not
    passed on. *)
Definition jaccard_distance_avx512_popcount
  (bytes : N) (ax bx : list byte) (ab aa bb : N) : Double.double :=
  let s := jaccard_blocks bytes ax bx ab 0 in
  if N.ltb 0 (j_bytes s)
  then jaccard_distance_default (j_bytes s) (j_ax s) (j_bx s) (j_and s) aa bb
  else jaccard_ratio (j_and s) (j_or s).

(** ** Reference counts over two buffers

    [count_bits op a b] is the number of set bits of the bytewise [op] of
    the two buffers, one byte at a time. *)
Fixpoint count_bits (op : N -> N -> N) (a b : list byte) : N :=
  match a, b with
  | x :: a', y :: b' => N_popcount (op (Byte.to_N x) (Byte.to_N y)) + count_bits op a' b'
  | _, _ => 0
  end.

Definition xor_bits : list byte -> list byte -> N := count_bits N.lxor.
Definition and_bits : list byte -> list byte -> N := count_bits N.land.
Definition or_bits : list byte -> list byte -> N := count_bits N.lor.

(** * Properties of the scalar bit-vector kernels *)

(** ** Counting set bits *)

Lemma N_popcount_even (n : N) : N_popcount (2 * n) = N_popcount n.
Proof. destruct n; reflexivity. Qed.

Lemma N_popcount_odd (n : N) : N_popcount (2 * n + 1) = N_popcount n + 1.
Proof. destruct n as [|p]; [reflexivity|]. change (N_popcount (2 * Npos p + 1)) with (1 + Pos_popcount p). cbn [N_popcount]. lia. Qed.

Lemma N_half_cases (n : N) : n = 2 * (n / 2) \/ n = 2 * (n / 2) + 1.
Proof.
  pose proof (N.div_mod n 2 ltac:(discriminate)) as Hdm.
  pose proof (N.mod_upper_bound n 2 ltac:(discriminate)) as Hm.
  revert Hdm Hm. generalize (n mod 2), (n / 2). intros r q Hdm Hm. lia.
Qed.

Lemma N_half_lt (n m : N) : n < 2 * m -> n / 2 < m.
Proof. intros H. apply N.Div0.div_lt_upper_bound. exact H. Qed.

(** The set bits of a number are those of its low [k] bits and those above. *)
Lemma N_popcount_split (k : nat) (lo hi : N) :
  lo < 2 ^ N.of_nat k ->
  N_popcount (lo + 2 ^ N.of_nat k * hi) = N_popcount lo + N_popcount hi.
Proof.
  revert lo. induction k as [|k IH]; intros lo Hlo.
  - change (2 ^ N.of_nat 0) with 1 in *.
    assert (lo = 0) by lia. subst lo. now rewrite N.mul_1_l.
  - rewrite Nat2N.inj_succ, N.pow_succ_r' in *.
    specialize (IH (lo / 2) (N_half_lt _ _ Hlo)).
    destruct (N_half_cases lo) as [Hlo2|Hlo2].
    + replace (lo + 2 * 2 ^ N.of_nat k * hi)
        with (2 * (lo / 2 + 2 ^ N.of_nat k * hi)) by (rewrite Hlo2 at 2; ring).
      rewrite N_popcount_even, IH.
      rewrite Hlo2 at 2. rewrite N_popcount_even. reflexivity.
    + replace (lo + 2 * 2 ^ N.of_nat k * hi)
        with (2 * (lo / 2 + 2 ^ N.of_nat k * hi) + 1) by (rewrite Hlo2 at 2; ring).
      rewrite N_popcount_odd, IH.
      rewrite Hlo2 at 2. rewrite N_popcount_odd. ring.
Qed.

(** A number below [2 ^ k] has at most [k] set bits. *)
Lemma N_popcount_bound (k : nat) (x : N) : x < 2 ^ N.of_nat k -> N_popcount x <= N.of_nat k.
Proof.
  revert x. induction k as [|k IH]; intros x Hx.
  - change (2 ^ N.of_nat 0) with 1 in Hx. assert (x = 0) by lia. now subst.
  - rewrite Nat2N.inj_succ, N.pow_succ_r' in *.
    specialize (IH (x / 2) (N_half_lt _ _ Hx)).
    destruct (N_half_cases x) as [Hx2|Hx2]; rewrite Hx2.
    + rewrite N_popcount_even. lia.
    + rewrite N_popcount_odd. lia.
Qed.

(** The loop adds the number of set bits of [x] to the counter. *)
Lemma popcount_loop_counts (x count : N) :
  count + N_popcount x < 2 ^ 64 ->
  popcount_loop x count = count + N_popcount x.
Proof.
  funelim (popcount_loop x count); intros Hlt.
  - simp popcount_loop. cbn [N_popcount]. lia.
  - simp popcount_loop.
    pose proof (popcount_clear_lowest p) as Hp.
    rewrite H.
    + unfold wrap64. rewrite N.mod_small by lia. lia.
    + unfold wrap64. rewrite N.mod_small by lia. lia.
Qed.

Lemma popcount_u64_counts (x : N) : x < 2 ^ 64 -> popcount_u64 x = N_popcount x.
Proof.
  intros Hx. unfold popcount_u64.
  pose proof (N_popcount_bound 64 x Hx) as Hb.
  rewrite popcount_loop_counts; [reflexivity|].
  change (N.of_nat 64) with 64 in Hb. cbn [N.add].
  apply N.le_lt_trans with 64; [exact Hb | reflexivity].
Qed.

(** ** Bounds and bits *)

Lemma high_bits_bounded (a n : N) :
  (forall i, n <= i -> N.testbit a i = false) -> a < 2 ^ n.
Proof.
  intros H.
  assert (E : a mod 2 ^ n = a).
  { apply N.bits_inj. intros i. destruct (N.lt_ge_cases i n) as [Hi|Hi].
    - now rewrite N.mod_pow2_bits_low.
    - now rewrite N.mod_pow2_bits_high, H. }
  rewrite <- E. apply N.mod_upper_bound. apply N.pow_nonzero. discriminate.
Qed.

Lemma bounded_high_bits (a n i : N) : a < 2 ^ n -> n <= i -> N.testbit a i = false.
Proof.
  intros Ha Hi. rewrite <- (N.mod_small a (2 ^ n)) by exact Ha.
  now apply N.mod_pow2_bits_high.
Qed.

Lemma byte_bound (x : byte) : Byte.to_N x < 2 ^ 8.
Proof. pose proof (Byte.to_N_bounded x). change (2 ^ 8) with 256. lia. Qed.

Lemma lor_shiftl_add (x t : N) : x < 2 ^ 8 -> N.lor x (N.shiftl t 8) = x + 2 ^ 8 * t.
Proof.
  intros Hx.
  assert (E : N.land x (N.shiftl t 8) = 0).
  { apply N.bits_inj_0. intros i. rewrite N.land_spec.
    destruct (N.lt_ge_cases i 8) as [Hi|Hi].
    - rewrite (N.shiftl_spec_low t 8 i Hi). apply andb_false_r.
    - now rewrite (bounded_high_bits x 8 i Hx Hi). }
  rewrite <- (N.lxor_lor _ _ E), <- (N.add_nocarry_lxor _ _ E).
  rewrite N.shiftl_mul_pow2. ring.
Qed.

Lemma wrap64_small (n : N) : n < 2 ^ 64 -> wrap64 n = n.
Proof. intros H. unfold wrap64. now apply N.mod_small. Qed.

Lemma wrap64_add_l (a b : N) : wrap64 (wrap64 a + b) = wrap64 (a + b).
Proof. unfold wrap64. apply N.Div0.add_mod_idemp_l. Qed.

Lemma le_combine_bound (l : list byte) : le_combine l < 2 ^ (8 * N.of_nat (length l)).
Proof.
  induction l as [|x l IH]; cbn [le_combine length].
  - reflexivity.
  - rewrite (lor_shiftl_add _ _ (byte_bound x)).
    rewrite Nat2N.inj_succ, N.mul_succ_r, N.pow_add_r.
    pose proof (byte_bound x). nia.
Qed.

Lemma load64_bound (p : list byte) : load64 p < 2 ^ 64.
Proof.
  unfold load64. eapply N.lt_le_trans; [apply le_combine_bound|].
  apply N.pow_le_mono_r; [discriminate|].
  pose proof (length_firstn 8 p) as Hl. lia.
Qed.

(** ** The three bitwise operations of the kernels, uniformly *)

Section Bitwise.
Variable op : N -> N -> N.
Variable f : bool -> bool -> bool.
Hypothesis f_false : f false false = false.
Hypothesis op_spec : forall a b i, N.testbit (op a b) i = f (N.testbit a i) (N.testbit b i).

Lemma op_bounded (a b n : N) : a < 2 ^ n -> b < 2 ^ n -> op a b < 2 ^ n.
Proof.
  intros Ha Hb. apply high_bits_bounded. intros i Hi.
  now rewrite op_spec, (bounded_high_bits a n i Ha Hi), (bounded_high_bits b n i Hb Hi).
Qed.

Lemma op_lor_shiftl (x y s t : N) :
  x < 2 ^ 8 -> y < 2 ^ 8 ->
  op (N.lor x (N.shiftl s 8)) (N.lor y (N.shiftl t 8)) = N.lor (op x y) (N.shiftl (op s t) 8).
Proof.
  intros Hx Hy. apply N.bits_inj. intros i.
  rewrite op_spec, !N.lor_spec, op_spec.
  destruct (N.lt_ge_cases i 8) as [Hi|Hi].
  - rewrite !(N.shiftl_spec_low _ 8 i Hi), !orb_false_r. reflexivity.
  - rewrite !(N.shiftl_spec_high' _ 8 i Hi), op_spec.
    rewrite (bounded_high_bits x 8 i Hx Hi), (bounded_high_bits y 8 i Hy Hi), f_false.
    reflexivity.
Qed.

(** The set bits of a word-wide [op] are those of its bytes. *)
Lemma popcount_op_le_combine (a b : list byte) :
  length a = length b ->
  N_popcount (op (le_combine a) (le_combine b)) = count_bits op a b.
Proof.
  revert b. induction a as [|x a IH]; intros [|y b] Hl; try discriminate.
  - cbn [le_combine count_bits].
    assert (E : op 0 0 = 0).
    { apply N.bits_inj_0. intros i. now rewrite op_spec, N.bits_0. }
    now rewrite E.
  - cbn [le_combine count_bits].
    rewrite (op_lor_shiftl _ _ _ _ (byte_bound x) (byte_bound y)).
    pose proof (op_bounded _ _ 8 (byte_bound x) (byte_bound y)) as Hxy.
    rewrite (lor_shiftl_add _ _ Hxy).
    rewrite (N_popcount_split 8 _ _ Hxy).
    rewrite IH by (injection Hl; auto). reflexivity.
Qed.

Lemma count_bits_split (n : nat) (a b : list byte) :
  count_bits op a b
  = count_bits op (firstn n a) (firstn n b) + count_bits op (skipn n a) (skipn n b).
Proof.
  revert a b. induction n as [|n IH]; intros a b.
  - reflexivity.
  - destruct a as [|x a]; [reflexivity|]. destruct b as [|y b].
    + cbn [firstn skipn count_bits]. destruct (skipn n a); reflexivity.
    + cbn [firstn skipn count_bits]. rewrite (IH a b). ring.
Qed.

Lemma count_bits_bound (a b : list byte) : count_bits op a b <= 8 * N.of_nat (length a).
Proof.
  revert b. induction a as [|x a IH]; intros [|y b]; cbn [count_bits length]; try lia.
  pose proof (N_popcount_bound 8 _ (op_bounded _ _ 8 (byte_bound x) (byte_bound y))) as Hb.
  change (N.of_nat 8) with 8 in Hb. specialize (IH b). lia.
Qed.

(** One step of a word loop counts the bits of the first eight bytes. *)
Lemma popcount_u64_load64 (a b : list byte) :
  length a = length b ->
  popcount_u64 (op (load64 a) (load64 b))
  = count_bits op (firstn 8 a) (firstn 8 b).
Proof.
  intros Hl.
  rewrite popcount_u64_counts by (apply op_bounded; apply load64_bound).
  unfold load64. apply popcount_op_le_combine.
  now rewrite !length_firstn, Hl.
Qed.

Lemma popcount_u64_load8 (x y : byte) (a b : list byte) :
  popcount_u64 (op (load8 (x :: a)) (load8 (y :: b)))
  = N_popcount (op (Byte.to_N x) (Byte.to_N y)).
Proof.
  cbn [load8]. apply popcount_u64_counts.
  eapply N.lt_trans; [apply (op_bounded _ _ 8); apply byte_bound | reflexivity].
Qed.

(** The eight lanes of a 64-byte block, counted lane by lane. *)
Lemma lanes_fold (a b : list byte) (k : nat) :
  length a = length b ->
  forall (s : nat) (v : N), v < 2 ^ 64 ->
  fold_left
    (fun v i => wrap64 (v + N_popcount (op (load64 (skipn (8 * i) a))
                                           (load64 (skipn (8 * i) b)))))
    (seq s k) v
  = wrap64 (v + count_bits op (firstn (8 * k) (skipn (8 * s) a))
                              (firstn (8 * k) (skipn (8 * s) b))).
Proof.
  intros Hl. induction k as [|k IH]; intros s v Hv.
  - cbn. now rewrite N.add_0_r, wrap64_small.
  - cbn [seq fold_left].
    rewrite IH by (apply N.mod_upper_bound; discriminate).
    rewrite wrap64_add_l. f_equal. rewrite <- N.add_assoc. f_equal.
    rewrite (count_bits_split 8 (firstn (8 * S k) _) (firstn (8 * S k) _)).
    rewrite !firstn_firstn, !skipn_firstn_comm, !skipn_skipn.
    replace (Nat.min 8 (8 * S k)) with 8%nat by lia.
    replace (8 * S k - 8)%nat with (8 * k)%nat by lia.
    replace (8 + 8 * s)%nat with (8 * S s)%nat by lia.
    f_equal. unfold load64. apply popcount_op_le_combine.
    rewrite !length_firstn, !length_skipn. lia.
Qed.

Lemma lane_spec (a b : list byte) (i : nat) :
  In i (seq 0 8) ->
  mm512_extracti64_epi64
    (mm512_lanewise op (mm512_loadu_si512 a) (mm512_loadu_si512 b)) i
  = op (load64 (skipn (8 * i) a)) (load64 (skipn (8 * i) b)).
Proof.
  intros Hi. apply in_seq in Hi.
  do 8 (destruct i as [|i]; [reflexivity|]). lia.
Qed.
End Bitwise.

Definition lxor_word := popcount_u64_load64 N.lxor xorb eq_refl N.lxor_spec.
Definition land_word := popcount_u64_load64 N.land andb eq_refl N.land_spec.
Definition lor_word := popcount_u64_load64 N.lor orb eq_refl N.lor_spec.
Definition lxor_byte := popcount_u64_load8 N.lxor xorb eq_refl N.lxor_spec.
Definition land_byte := popcount_u64_load8 N.land andb eq_refl N.land_spec.
Definition lor_byte := popcount_u64_load8 N.lor orb eq_refl N.lor_spec.

(** ** The loops, one iteration at a time *)

Ltac loop_case :=
  match goal with
  | |- context [uint_ge ?a ?b] => destruct (uint_ge a b); [|]; cbn; try reflexivity; try lia
  end.

Lemma hamming_words_step (bytes : N) (ax bx : list byte) (v : N) :
  8 <= bytes ->
  hamming_words bytes ax bx v
  = hamming_words (bytes - 8) (skipn 8 ax) (skipn 8 bx)
      (wrap64 (v + popcount_u64 (N.lxor (load64 ax) (load64 bx)))).
Proof. intros H. rewrite hamming_words_equation_1. loop_case. Qed.

Lemma hamming_words_done (bytes : N) (ax bx : list byte) (v : N) :
  bytes < 8 -> hamming_words bytes ax bx v = HammingState bytes ax bx v.
Proof. intros H. rewrite hamming_words_equation_1. loop_case. Qed.

Lemma hamming_tail_step (bytes : N) (ax bx : list byte) (v : N) :
  1 <= bytes ->
  hamming_tail bytes ax bx v
  = hamming_tail (bytes - 1) (skipn 1 ax) (skipn 1 bx)
      (wrap64 (v + popcount_u64 (N.lxor (load8 ax) (load8 bx)))).
Proof. intros H. rewrite hamming_tail_equation_1. loop_case. Qed.

Lemma hamming_tail_done (bytes : N) (ax bx : list byte) (v : N) :
  bytes < 1 -> hamming_tail bytes ax bx v = v.
Proof. intros H. rewrite hamming_tail_equation_1. loop_case. Qed.

Lemma jaccard_words_step (bytes : N) (ax bx : list byte) (and_data or_data : N) :
  8 <= bytes ->
  jaccard_words bytes ax bx and_data or_data
  = jaccard_words (bytes - 8) (skipn 8 ax) (skipn 8 bx)
      (wrap64 (and_data + popcount_u64 (N.land (load64 ax) (load64 bx))))
      (wrap64 (or_data + popcount_u64 (N.lor (load64 ax) (load64 bx)))).
Proof. intros H. rewrite jaccard_words_equation_1. loop_case. Qed.

Lemma jaccard_words_done (bytes : N) (ax bx : list byte) (and_data or_data : N) :
  bytes < 8 ->
  jaccard_words bytes ax bx and_data or_data = JaccardState bytes ax bx and_data or_data.
Proof. intros H. rewrite jaccard_words_equation_1. loop_case. Qed.

Lemma jaccard_tail_step (bytes : N) (ax bx : list byte) (and_data or_data : N) :
  1 <= bytes ->
  jaccard_tail bytes ax bx and_data or_data
  = jaccard_tail (bytes - 1) (skipn 1 ax) (skipn 1 bx)
      (wrap64 (and_data + popcount_u64 (N.land (load8 ax) (load8 bx))))
      (wrap64 (or_data + popcount_u64 (N.lor (load8 ax) (load8 bx)))).
Proof. intros H. rewrite jaccard_tail_equation_1. loop_case. Qed.

Lemma jaccard_tail_done (bytes : N) (ax bx : list byte) (and_data or_data : N) :
  bytes < 1 -> jaccard_tail bytes ax bx and_data or_data = (and_data, or_data).
Proof. intros H. rewrite jaccard_tail_equation_1. loop_case. Qed.

(** ** The Hamming kernel *)

(** The byte loop alone, run over a whole buffer. *)
Lemma hamming_tail_counts (a b : list byte) (v : N) :
  length a = length b -> v < 2 ^ 64 ->
  hamming_tail (N.of_nat (length a)) a b v = wrap64 (v + xor_bits a b).
Proof.
  revert b v. induction a as [|x a IH]; intros [|y b] v Hl Hv; try discriminate.
  - rewrite hamming_tail_done by (cbn; lia).
    cbn. rewrite N.add_0_r. now rewrite wrap64_small.
  - rewrite hamming_tail_step by (cbn [length]; lia).
    replace (N.of_nat (length (x :: a)) - 1) with (N.of_nat (length a)) by (cbn [length]; lia).
    cbn [skipn]. rewrite lxor_byte.
    rewrite IH; [| now injection Hl | apply N.mod_upper_bound; discriminate].
    rewrite wrap64_add_l. unfold xor_bits. cbn [count_bits]. f_equal. ring.
Qed.

(** The word loop followed by the byte loop, over a whole buffer. *)
Lemma hamming_default_counts (n : nat) :
  forall (a b : list byte) (v : N),
  length a = n -> length b = n -> v < 2 ^ 64 ->
  hamming_distance_default (N.of_nat n) a b v = wrap64 (v + xor_bits a b).
Proof.
  induction n as [n IH] using lt_wf_ind. intros a b v Ha Hb Hv.
  unfold hamming_distance_default.
  destruct (N.lt_ge_cases (N.of_nat n) 8) as [Hlt|Hge].
  - rewrite hamming_words_done by exact Hlt. cbn [h_bytes h_ax h_bx h_v].
    rewrite <- Ha. apply hamming_tail_counts; congruence.
  - rewrite hamming_words_step by exact Hge.
    rewrite lxor_word by congruence.
    replace (N.of_nat n - 8) with (N.of_nat (n - 8)) by lia.
    specialize (IH (n - 8)%nat ltac:(lia) (skipn 8 a) (skipn 8 b)
                  (wrap64 (v + count_bits N.lxor (firstn 8 a) (firstn 8 b)))).
    unfold hamming_distance_default in IH.
    rewrite IH;
      [| rewrite length_skipn; lia | rewrite length_skipn; lia
       | apply N.mod_upper_bound; discriminate].
    rewrite wrap64_add_l. unfold xor_bits.
    rewrite (count_bits_split N.lxor 8 a b). f_equal. ring.
Qed.

(** C3.  The scalar Hamming kernel returns the seed plus the number of set
    bits of the bytewise XOR of the two buffers, as an exact [uint64_t] sum
    (so modulo [2 ^ 64], the range of its result type), and the word loop
    followed by the byte loop computes what the byte loop alone computes
    over the whole buffer. *)
Theorem hamming_distance_default_spec
  (bytes : N) (a b : list byte) (seed : N)
  (Ha : N.of_nat (length a) = bytes) (Hb : N.of_nat (length b) = bytes)
  (Hseed : seed < 2 ^ 64) :
  hamming_distance_default bytes a b seed = wrap64 (seed + xor_bits a b)
  /\ hamming_distance_default bytes a b seed = hamming_tail bytes a b seed
  /\ (seed + xor_bits a b < 2 ^ 64 ->
      hamming_distance_default bytes a b seed = seed + xor_bits a b).
Proof.
  assert (Hlen : length b = length a) by lia.
  assert (E : hamming_distance_default bytes a b seed = wrap64 (seed + xor_bits a b)).
  { rewrite <- Ha. now apply hamming_default_counts. }
  split; [exact E|]. split.
  - rewrite E, <- Ha. symmetry. now apply hamming_tail_counts.
  - intros Hsmall. rewrite E. now apply wrap64_small.
Qed.

Lemma hamming_distance_default_spec_witness :
  hamming_distance_default 16 (repeat xff 16) (repeat x00 16) 0
  = wrap64 (0 + xor_bits (repeat xff 16) (repeat x00 16))
  /\ hamming_distance_default 16 (repeat xff 16) (repeat x00 16) 0
     = hamming_tail 16 (repeat xff 16) (repeat x00 16) 0
  /\ (0 + xor_bits (repeat xff 16) (repeat x00 16) < 2 ^ 64 ->
      hamming_distance_default 16 (repeat xff 16) (repeat x00 16) 0
      = 0 + xor_bits (repeat xff 16) (repeat x00 16)).
Proof.
  apply (hamming_distance_default_spec 16 (repeat xff 16) (repeat x00 16) 0);
    reflexivity.
Defined.

(** ** The Jaccard kernel *)

Lemma jaccard_tail_counts (a b : list byte) (and_data or_data : N) :
  length a = length b -> and_data < 2 ^ 64 -> or_data < 2 ^ 64 ->
  jaccard_tail (N.of_nat (length a)) a b and_data or_data
  = (wrap64 (and_data + and_bits a b), wrap64 (or_data + or_bits a b)).
Proof.
  revert b and_data or_data.
  induction a as [|x a IH]; intros [|y b] ad od Hl Had Hod; try discriminate.
  - rewrite jaccard_tail_done by (cbn; lia).
    cbn. rewrite !N.add_0_r. now rewrite !wrap64_small.
  - rewrite jaccard_tail_step by (cbn [length]; lia).
    replace (N.of_nat (length (x :: a)) - 1) with (N.of_nat (length a)) by (cbn [length]; lia).
    cbn [skipn]. rewrite land_byte, lor_byte.
    rewrite IH;
      [| now injection Hl | apply N.mod_upper_bound; discriminate
       | apply N.mod_upper_bound; discriminate].
    rewrite !wrap64_add_l. unfold and_bits, or_bits. cbn [count_bits].
    f_equal; f_equal; ring.
Qed.

Lemma jaccard_loops_count (n : nat) :
  forall (a b : list byte) (and_data or_data : N),
  length a = n -> length b = n -> and_data < 2 ^ 64 -> or_data < 2 ^ 64 ->
  (let s := jaccard_words (N.of_nat n) a b and_data or_data in
   jaccard_tail (j_bytes s) (j_ax s) (j_bx s) (j_and s) (j_or s))
  = (wrap64 (and_data + and_bits a b), wrap64 (or_data + or_bits a b)).
Proof.
  induction n as [n IH] using lt_wf_ind. intros a b ad od Ha Hb Had Hod.
  cbv zeta.
  destruct (N.lt_ge_cases (N.of_nat n) 8) as [Hlt|Hge].
  - rewrite jaccard_words_done by exact Hlt. cbn [j_bytes j_ax j_bx j_and j_or].
    rewrite <- Ha. apply jaccard_tail_counts; congruence.
  - rewrite jaccard_words_step by exact Hge.
    rewrite land_word, lor_word by congruence.
    replace (N.of_nat n - 8) with (N.of_nat (n - 8)) by lia.
    specialize (IH (n - 8)%nat ltac:(lia) (skipn 8 a) (skipn 8 b)
                  (wrap64 (ad + count_bits N.land (firstn 8 a) (firstn 8 b)))
                  (wrap64 (od + count_bits N.lor (firstn 8 a) (firstn 8 b)))).
    cbv zeta in IH.
    rewrite IH;
      [| rewrite length_skipn; lia | rewrite length_skipn; lia
       | apply N.mod_upper_bound; discriminate
       | apply N.mod_upper_bound; discriminate].
    rewrite !wrap64_add_l. unfold and_bits, or_bits.
    rewrite (count_bits_split N.land 8 a b), (count_bits_split N.lor 8 a b).
    f_equal; f_equal; ring.
Qed.

Lemma jaccard_default_counts (a b : list byte) (ab aa bb : N) :
  length a = length b -> ab < 2 ^ 64 ->
  jaccard_distance_default (N.of_nat (length a)) a b ab aa bb
  = jaccard_ratio (wrap64 (ab + and_bits a b)) (wrap64 (or_bits a b)).
Proof.
  intros Hl Hab. unfold jaccard_distance_default.
  pose proof (jaccard_loops_count (length a) a b ab 0 eq_refl (eq_sym Hl) Hab eq_refl) as E.
  cbv zeta in E. rewrite E. reflexivity.
Qed.

Definition all_zero (a : list byte) : Prop := Forall (fun x => x = x00) a.

Lemma or_bits_all_zero (a b : list byte) : all_zero a -> all_zero b -> or_bits a b = 0.
Proof.
  intros Ha. revert b. induction Ha as [|x a Hx Ha IH]; intros b Hb.
  - reflexivity.
  - destruct Hb as [|y b Hy Hb]; [reflexivity|].
    subst x y. unfold or_bits in *. cbn [count_bits]. now rewrite IH.
Qed.

Lemma or_bits_small (a b : list byte) :
  N.of_nat (length a) < 2 ^ 32 -> wrap64 (or_bits a b) = or_bits a b.
Proof.
  intros H. apply wrap64_small.
  pose proof (count_bits_bound N.lor orb eq_refl N.lor_spec a b) as Hb.
  unfold or_bits. change (2 ^ 32) with 4294967296 in H.
  change (2 ^ 64) with 18446744073709551616. lia.
Qed.

(** C4.  The scalar Jaccard kernel counts [andSeed + popcount (a AND b)]
    (a [uint64_t] sum) and [popcount (a OR b)] over the bytes and returns
    [1 - andCount / orCount], and exactly [0.0] when [orCount] is zero; so
    two all-zero buffers give [0.0], a byte count of zero gives [0.0], and
    the Hamming kernel with a byte count of zero returns its seed. *)
Theorem jaccard_distance_default_spec
  (bytes : N) (a b : list byte) (andSeed normA normB : N)
  (Ha : N.of_nat (length a) = bytes) (Hb : N.of_nat (length b) = bytes)
  (Hbytes : bytes < 2 ^ 32) (Hseed : andSeed < 2 ^ 64) :
  let andCount := wrap64 (andSeed + and_bits a b) in
  let orCount := or_bits a b in
  jaccard_distance_default bytes a b andSeed normA normB
  = (if N.eqb orCount 0 then Double.zero
     else Double.sub Double.one
            (Double.div (Double.of_uint andCount) (Double.of_uint orCount)))
  /\ (all_zero a -> all_zero b ->
      jaccard_distance_default bytes a b andSeed normA normB = Double.zero)
  /\ (forall a' b' : list byte,
      jaccard_distance_default 0 a' b' andSeed normA normB = Double.zero)
  /\ (forall (a' b' : list byte) (seed : N),
      hamming_distance_default 0 a' b' seed = seed).
Proof.
  intros andCount orCount.
  assert (Hlen : length a = length b) by lia.
  assert (E : jaccard_distance_default bytes a b andSeed normA normB
              = jaccard_ratio andCount orCount).
  { rewrite <- Ha, (jaccard_default_counts a b andSeed normA normB Hlen Hseed).
    rewrite or_bits_small by (rewrite Ha; exact Hbytes). reflexivity. }
  split; [exact E|]. split; [|split].
  - intros Za Zb. rewrite E. unfold jaccard_ratio, orCount.
    now rewrite (or_bits_all_zero a b Za Zb).
  - intros a' b'. unfold jaccard_distance_default.
    rewrite jaccard_words_done by reflexivity. cbn [j_bytes j_ax j_bx j_and j_or].
    rewrite jaccard_tail_done by reflexivity. reflexivity.
  - intros a' b' seed. unfold hamming_distance_default.
    rewrite hamming_words_done by reflexivity. cbn [h_bytes h_ax h_bx h_v].
    now rewrite hamming_tail_done.
Qed.

Lemma jaccard_distance_default_spec_witness :
  jaccard_distance_default 16 (repeat xff 16) (repeat x0f 16) 3 0 0
  = Double.sub Double.one (Double.div (Double.of_uint 67) (Double.of_uint 128)).
Proof.
  exact (proj1 (jaccard_distance_default_spec 16 (repeat xff 16) (repeat x0f 16) 3 0 0
                  eq_refl eq_refl eq_refl eq_refl)).
Defined.

(** C8.  The scalar Jaccard kernel does not depend on its [normA] and
    [normB] arguments. *)
Theorem jaccard_distance_default_ignores_norms
  (bytes : N) (a b : list byte) (andSeed normA normB normA' normB' : N) :
  jaccard_distance_default bytes a b andSeed normA normB
  = jaccard_distance_default bytes a b andSeed normA' normB'.
Proof. reflexivity. Qed.

Lemma Pos_popcount_pos (p : positive) : 0 < Pos_popcount p.
Proof. induction p; cbn [Pos_popcount]; lia. Qed.

(** Clearing the lowest set bit as often as [x] has set bits leaves zero:
    the exit condition of the loop of [popcount_u64]. *)
Lemma clear_lowest_iter (k : nat) :
  forall x : N, N_popcount x = N.of_nat k ->
  N.iter (N.of_nat k) (fun y => N.land y (y - 1)) x = 0.
Proof.
  induction k as [|k IH]; intros x Hk.
  - destruct x as [|p]; [reflexivity|].
    pose proof (Pos_popcount_pos p). cbn [N_popcount] in Hk. cbn in Hk. lia.
  - destruct x as [|p]; [cbn in Hk; lia|].
    rewrite Nat2N.inj_succ, N.iter_succ_r.
    apply IH. pose proof (popcount_clear_lowest p). lia.
Qed.

(** C10.  For a 64-bit [x], every iteration of the loop of [popcount_u64]
    removes exactly one set bit of [x] (so the loop, defined by recursion on
    that number, ends after as many iterations as [x] has set bits, at most
    64), and the count returned is the number of set bits of [x]. *)
Theorem popcount_u64_total_and_exact (x : N) (Hx : x < 2 ^ 64) :
  (x <> 0 -> N_popcount (N.land x (x - 1)) < N_popcount x)
  /\ N.iter (N_popcount x) (fun y => N.land y (y - 1)) x = 0
  /\ N_popcount x <= 64
  /\ popcount_u64 x = N_popcount x.
Proof.
  split; [|split; [|split]].
  - intros Hnz. destruct x as [|p]; [congruence|].
    rewrite <- (popcount_clear_lowest p). lia.
  - pose proof (clear_lowest_iter (N.to_nat (N_popcount x)) x) as Hit.
    rewrite N2Nat.id in Hit. exact (Hit eq_refl).
  - exact (N_popcount_bound 64 x Hx).
  - exact (popcount_u64_counts x Hx).
Qed.

Lemma popcount_u64_total_and_exact_witness :
  popcount_u64 18446744073709551615 = N_popcount 18446744073709551615.
Proof.
  exact (proj2 (proj2 (proj2
    (popcount_u64_total_and_exact 18446744073709551615 eq_refl)))).
Defined.

(** ** The AVX-512 kernels *)

Lemma hamming_blocks_step (bytes : N) (ax bx : list byte) (v : N) :
  64 <= bytes ->
  hamming_blocks bytes ax bx v
  = hamming_blocks (bytes - 64) (skipn 64 ax) (skipn 64 bx) (hamming_block ax bx v).
Proof. intros H. rewrite hamming_blocks_equation_1. loop_case. Qed.

Lemma hamming_blocks_done (bytes : N) (ax bx : list byte) (v : N) :
  bytes < 64 -> hamming_blocks bytes ax bx v = HammingState bytes ax bx v.
Proof. intros H. rewrite hamming_blocks_equation_1. loop_case. Qed.

Lemma jaccard_blocks_step (bytes : N) (ax bx : list byte) (and_data or_data : N) :
  64 <= bytes ->
  jaccard_blocks bytes ax bx and_data or_data
  = jaccard_blocks (bytes - 64) (skipn 64 ax) (skipn 64 bx)
      (fst (jaccard_block ax bx and_data or_data))
      (snd (jaccard_block ax bx and_data or_data)).
Proof. intros H. rewrite jaccard_blocks_equation_1. loop_case. Qed.

Lemma jaccard_blocks_done (bytes : N) (ax bx : list byte) (and_data or_data : N) :
  bytes < 64 ->
  jaccard_blocks bytes ax bx and_data or_data = JaccardState bytes ax bx and_data or_data.
Proof. intros H. rewrite jaccard_blocks_equation_1. loop_case. Qed.

Lemma fold_left_ext_in {A B : Type} (f g : A -> B -> A) (l : list B) :
  (forall a i, In i l -> f a i = g a i) ->
  forall a, fold_left f l a = fold_left g l a.
Proof.
  induction l as [|i l IH]; intros H a; [reflexivity|].
  cbn [fold_left]. rewrite (H a i (or_introl eq_refl)).
  apply IH. intros a' i' Hi. apply H. now right.
Qed.

Lemma fold_left_pair {A B C : Type} (f : A -> C -> A) (g : B -> C -> B) (l : list C) :
  forall a b,
  fold_left (fun c i => (f (fst c) i, g (snd c) i)) l (a, b)
  = (fold_left f l a, fold_left g l b).
Proof. induction l as [|i l IH]; intros a b; [reflexivity|]. cbn [fold_left fst snd]. apply IH. Qed.

(** One 64-byte block adds the set bits of its 64 bytes. *)
Lemma block_count (op : N -> N -> N) (f : bool -> bool -> bool)
  (f_false : f false false = false)
  (op_spec : forall a b i, N.testbit (op a b) i = f (N.testbit a i) (N.testbit b i))
  (a b : list byte) (v : N) :
  length a = length b -> v < 2 ^ 64 ->
  fold_left
    (fun v i =>
       wrap64 (v + mm_popcnt_u64
                     (mm512_extracti64_epi64
                        (mm512_lanewise op (mm512_loadu_si512 a) (mm512_loadu_si512 b)) i)))
    (seq 0 8) v
  = wrap64 (v + count_bits op (firstn 64 a) (firstn 64 b)).
Proof.
  intros Hl Hv.
  rewrite (fold_left_ext_in _
    (fun v i => wrap64 (v + N_popcount (op (load64 (skipn (8 * i) a))
                                           (load64 (skipn (8 * i) b)))))).
  - rewrite (lanes_fold op f f_false op_spec a b 8 Hl 0 v Hv). reflexivity.
  - intros v' i Hi. unfold mm_popcnt_u64. now rewrite lane_spec.
Qed.

Lemma hamming_blocks_counts (q : nat) :
  forall (r : nat) (a b : list byte) (v : N),
  (r < 64)%nat -> length a = (64 * q + r)%nat -> length b = (64 * q + r)%nat ->
  v < 2 ^ 64 ->
  hamming_blocks (N.of_nat (64 * q + r)) a b v
  = HammingState (N.of_nat r) (skipn (64 * q) a) (skipn (64 * q) b)
      (wrap64 (v + xor_bits (firstn (64 * q) a) (firstn (64 * q) b))).
Proof.
  induction q as [|q IH]; intros r a b v Hr Ha Hb Hv.
  - rewrite hamming_blocks_done by (cbn [Nat.mul Nat.add]; lia).
    cbn. now rewrite N.add_0_r, wrap64_small.
  - rewrite hamming_blocks_step by lia.
    unfold hamming_block, mm512_xor_si512. cbv zeta.
    rewrite (block_count N.lxor xorb eq_refl N.lxor_spec) by (congruence || exact Hv).
    replace (N.of_nat (64 * S q + r) - 64) with (N.of_nat (64 * q + r)) by lia.
    rewrite IH;
      [| exact Hr | rewrite length_skipn; lia | rewrite length_skipn; lia
       | apply N.mod_upper_bound; discriminate].
    rewrite !skipn_skipn. replace (64 * q + 64)%nat with (64 * S q)%nat by lia.
    f_equal. rewrite wrap64_add_l. unfold xor_bits.
    rewrite (count_bits_split N.lxor 64 (firstn (64 * S q) a) (firstn (64 * S q) b)).
    rewrite !firstn_firstn, !skipn_firstn_comm.
    replace (Nat.min 64 (64 * S q)) with 64%nat by lia.
    replace (64 * S q - 64)%nat with (64 * q)%nat by lia.
    f_equal. ring.
Qed.

Lemma jaccard_blocks_counts (q : nat) :
  forall (r : nat) (a b : list byte) (and_data or_data : N),
  (r < 64)%nat -> length a = (64 * q + r)%nat -> length b = (64 * q + r)%nat ->
  and_data < 2 ^ 64 -> or_data < 2 ^ 64 ->
  jaccard_blocks (N.of_nat (64 * q + r)) a b and_data or_data
  = JaccardState (N.of_nat r) (skipn (64 * q) a) (skipn (64 * q) b)
      (wrap64 (and_data + and_bits (firstn (64 * q) a) (firstn (64 * q) b)))
      (wrap64 (or_data + or_bits (firstn (64 * q) a) (firstn (64 * q) b))).
Proof.
  induction q as [|q IH]; intros r a b ad od Hr Ha Hb Had Hod.
  - rewrite jaccard_blocks_done by (cbn [Nat.mul Nat.add]; lia).
    cbn. now rewrite !N.add_0_r, !wrap64_small.
  - rewrite jaccard_blocks_step by lia. unfold jaccard_block. cbv zeta.
    rewrite (fold_left_pair
      (fun v i => wrap64 (v + mm_popcnt_u64 (mm512_extracti64_epi64
         (mm512_and_si512 (mm512_loadu_si512 a) (mm512_loadu_si512 b)) i)))
      (fun v i => wrap64 (v + mm_popcnt_u64 (mm512_extracti64_epi64
         (mm512_or_si512 (mm512_loadu_si512 a) (mm512_loadu_si512 b)) i)))).
    cbn [fst snd]. unfold mm512_and_si512, mm512_or_si512.
    rewrite (block_count N.land andb eq_refl N.land_spec) by (congruence || assumption).
    rewrite (block_count N.lor orb eq_refl N.lor_spec) by (congruence || assumption).
    replace (N.of_nat (64 * S q + r) - 64) with (N.of_nat (64 * q + r)) by lia.
    rewrite IH;
      [| exact Hr | rewrite length_skipn; lia | rewrite length_skipn; lia
       | apply N.mod_upper_bound; discriminate
       | apply N.mod_upper_bound; discriminate].
    rewrite !skipn_skipn. replace (64 * q + 64)%nat with (64 * S q)%nat by lia.
    rewrite !wrap64_add_l. unfold and_bits, or_bits.
    rewrite (count_bits_split N.land 64 (firstn (64 * S q) a) (firstn (64 * S q) b)).
    rewrite (count_bits_split N.lor 64 (firstn (64 * S q) a) (firstn (64 * S q) b)).
    rewrite !firstn_firstn, !skipn_firstn_comm.
    replace (Nat.min 64 (64 * S q)) with 64%nat by lia.
    replace (64 * S q - 64)%nat with (64 * q)%nat by lia.
    f_equal; f_equal; ring.
Qed.

(** The accelerated Hamming kernel hands its running count to the scalar
    kernel as the seed of the remainder, and so agrees with the scalar kernel
    on every buffer. *)
Lemma hamming_avx512_agrees (q r : nat) (a b : list byte) (seed : N) :
  (r < 64)%nat -> length a = (64 * q + r)%nat -> length b = (64 * q + r)%nat ->
  seed < 2 ^ 64 ->
  hamming_distance_avx512_popcount (N.of_nat (64 * q + r)) a b seed
  = hamming_distance_default (N.of_nat (64 * q + r)) a b seed.
Proof.
  intros Hr Ha Hb Hseed.
  rewrite (hamming_default_counts (64 * q + r) a b seed Ha Hb Hseed).
  unfold hamming_distance_avx512_popcount.
  rewrite (hamming_blocks_counts q r a b seed Hr Ha Hb Hseed).
  cbn [h_bytes h_ax h_bx h_v].
  unfold xor_bits. rewrite (count_bits_split N.lxor (64 * q) a b).
  destruct (N.ltb_spec 0 (N.of_nat r)) as [Hpos|Hzero].
  - rewrite (hamming_default_counts r);
      [| rewrite length_skipn; lia | rewrite length_skipn; lia
       | apply N.mod_upper_bound; discriminate].
    rewrite wrap64_add_l. unfold xor_bits. f_equal. ring.
  - assert (r = 0)%nat by lia. subst r.
    rewrite (skipn_all2 a), (skipn_all2 b) by lia.
    destruct (firstn (64 * q) a), (firstn (64 * q) b); cbn [count_bits];
      now rewrite ?N.add_0_r.
Qed.

(** What the accelerated Jaccard kernel returns: the AND count is that of
    the whole buffer; the OR count is that of the whole buffer when the byte
    count is a multiple of 64, and that of the remainder alone otherwise. *)
Lemma jaccard_avx512_counts (q r : nat) (a b : list byte) (ab aa bb : N) :
  (r < 64)%nat -> length a = (64 * q + r)%nat -> length b = (64 * q + r)%nat ->
  ab < 2 ^ 64 ->
  jaccard_distance_avx512_popcount (N.of_nat (64 * q + r)) a b ab aa bb
  = jaccard_ratio
      (wrap64 (ab + and_bits a b))
      (if Nat.eqb r 0 then wrap64 (or_bits a b)
       else wrap64 (or_bits (skipn (64 * q) a) (skipn (64 * q) b))).
Proof.
  intros Hr Ha Hb Hab.
  unfold jaccard_distance_avx512_popcount.
  rewrite (jaccard_blocks_counts q r a b ab 0 Hr Ha Hb Hab eq_refl).
  cbn [j_bytes j_ax j_bx j_and j_or].
  assert (Hand : and_bits a b
                 = and_bits (firstn (64 * q) a) (firstn (64 * q) b)
                   + and_bits (skipn (64 * q) a) (skipn (64 * q) b))
    by apply (count_bits_split N.land).
  destruct (Nat.eqb_spec r 0) as [Hz|Hnz].
  - subst r. replace (0 <? N.of_nat 0) with false by reflexivity.
    rewrite (firstn_all2 a), (firstn_all2 b) by lia. reflexivity.
  - replace (0 <? N.of_nat r) with true by (symmetry; apply N.ltb_lt; lia).
    assert (Hlen : length (skipn (64 * q) a) = length (skipn (64 * q) b))
      by (rewrite !length_skipn; lia).
    assert (Hr' : N.of_nat r = N.of_nat (length (skipn (64 * q) a)))
      by (rewrite length_skipn; lia).
    rewrite Hr'.
    rewrite (jaccard_default_counts _ _ _ aa bb Hlen)
      by (apply N.mod_upper_bound; discriminate).
    rewrite wrap64_add_l, Hand. f_equal. f_equal. ring.
Qed.

(** Without a remainder after full blocks (a byte count below 64, or a
    multiple of 64) the two Jaccard kernels agree. *)
Lemma jaccard_avx512_agrees_without_remainder
  (q r : nat) (a b : list byte) (ab aa bb : N) :
  (r < 64)%nat -> length a = (64 * q + r)%nat -> length b = (64 * q + r)%nat ->
  ab < 2 ^ 64 -> (q = 0 \/ r = 0)%nat ->
  jaccard_distance_avx512_popcount (N.of_nat (64 * q + r)) a b ab aa bb
  = jaccard_distance_default (N.of_nat (64 * q + r)) a b ab aa bb.
Proof.
  intros Hr Ha Hb Hab Hqr.
  rewrite (jaccard_avx512_counts q r a b ab aa bb Hr Ha Hb Hab).
  rewrite <- Ha. rewrite (jaccard_default_counts a b ab aa bb) by (congruence || exact Hab).
  destruct (Nat.eqb_spec r 0) as [Hz|Hnz]; [reflexivity|].
  destruct Hqr as [Hq|Hz]; [subst q | contradiction]. reflexivity.
Qed.

(** C1.  On two buffers of 65 bytes [0xFF] the accelerated Jaccard kernel
    returns [-64.0] where the scalar kernel returns [0.0]: after one full
    block the remainder is handed to the scalar kernel, which starts its OR
    count again from zero, so [520 / 8] is computed in place of
    [520 / 520]. *)
Theorem jaccard_avx512_remainder_diverges :
  jaccard_distance_avx512_popcount 65 (repeat xff 65) (repeat xff 65) 0 0 0
  = S754_finite true 4503599627370496 (-46)
  /\ jaccard_distance_default 65 (repeat xff 65) (repeat xff 65) 0 0 0 = Double.zero
  /\ jaccard_distance_avx512_popcount 65 (repeat xff 65) (repeat xff 65) 0 0 0
     <> jaccard_distance_default 65 (repeat xff 65) (repeat xff 65) 0 0 0.
Proof.
  assert (E1 : jaccard_distance_avx512_popcount 65 (repeat xff 65) (repeat xff 65) 0 0 0
               = S754_finite true 4503599627370496 (-46)) by (vm_compute; reflexivity).
  assert (E2 : jaccard_distance_default 65 (repeat xff 65) (repeat xff 65) 0 0 0
               = Double.zero) by (vm_compute; reflexivity).
  split; [exact E1|]. split; [exact E2|].
  rewrite E1, E2. discriminate.
Qed.

(** * Half-precision vectors ([halfutils.hpp], [halfutils.cpp])

    The build modelled is the one without [FLT16_SUPPORT]: [half] is
    [std::uint16_t] and the conversions are the manual ones. *)

Local Open Scope Z_scope.

Definition wrap16 (z : Z) : Z := z mod 2 ^ 16.
Definition wrap32 (z : Z) : Z := z mod 2 ^ 32.

(** The value of a 32-bit pattern read as an [int32_t]. *)
Definition to_int32 (z : Z) : Z := if z <? 2 ^ 31 then z else z - 2 ^ 32.

(** ** binary32 values: [float] *)

Module Float32.
Definition float := spec_float.
Definition prec : Z := 24.
Definition emax : Z := 128.

Definition zero : float := S754_zero false.
Definition infinity : float := S754_infinity false.
Definition quiet_NaN : float := S754_nan.

(** [(float)n] for an integer [n]. *)
Definition of_int (n : Z) : float := binary_normalize prec emax n 0 false.

Definition opp (x : float) : float := SFopp x.
Definition abs (x : float) : float := SFabs x.
Definition add (x y : float) : float := SFadd prec emax x y.
Definition sub (x y : float) : float := SFsub prec emax x y.
Definition mul (x y : float) : float := SFmul prec emax x y.
Definition div (x y : float) : float := SFdiv prec emax x y.
Definition sqrt (x : float) : float := SFsqrt prec emax x.
Definition eqb (x y : float) : bool := SFeqb x y.

(** The object representation of a [float], as [memcpy] into a
    [uint32_t] reads it: sign, biased exponent, fraction.  The one NaN of
    [spec_float] has the pattern of [quiet_NaN()]. *)
Definition bits (x : float) : Z :=
  match x with
  | S754_zero s => Z.shiftl (Z.b2z s) 31
  | S754_infinity s => Z.lor (Z.shiftl (Z.b2z s) 31) 0x7f800000
  | S754_nan => 0x7fc00000
  | S754_finite s m e =>
      if 2 ^ 23 <=? Zpos m
      then Z.lor (Z.shiftl (Z.b2z s) 31)
                 (Z.lor (Z.shiftl (e + 150) 23) (Zpos m - 2 ^ 23))
      else Z.lor (Z.shiftl (Z.b2z s) 31) (Zpos m)
  end.
End Float32.

(** More of binary64: what the half codec and the cosine kernel use. *)
Module Double64.
Import Double.

(** [(double)x] for a [float] [x]: exact. *)
Definition of_float (x : Float32.float) : double :=
  match x with
  | S754_finite s m e => binary_normalize prec emax (cond_Zopp s (Zpos m)) e s
  | _ => x
  end.

(** [(float)x] for a [double] [x]: round to nearest, ties to even. *)
Definition to_float (x : double) : Float32.float :=
  match x with
  | S754_finite s m e =>
      binary_normalize Float32.prec Float32.emax (cond_Zopp s (Zpos m)) e s
  | _ => x
  end.

Definition mul (x y : double) : double := SFmul prec emax x y.

(** [std::pow(2.0, n)] for an integer [n]: the power of two, exactly. *)
Definition pow2 (n : Z) : double := binary_normalize prec emax 1 n false.
End Double64.

(** ** The manual codec *)

(** [half_to_float_manual].  In the normal case [std::pow(2.0f, int)]
    promotes to [double], so the product is a [double] product, converted
    back on assignment to [float result]. *)
Definition half_to_float_manual (h : Z) : Float32.float :=
  let sign := Z.land (Z.shiftr h 15) 0x0001 in
  let exponent := Z.land (Z.shiftr h 10) 0x001f in
  let mantissa := Z.land h 0x03ff in
  if exponent =? 0 then
    if mantissa =? 0 then
      if sign =? 0 then Float32.zero else S754_zero true
    else
      let result := Float32.div (Float32.of_int mantissa) (Float32.of_int 1024) in
      if sign =? 0 then result else Float32.opp result
  else if exponent =? 31 then
    if mantissa =? 0 then
      if sign =? 0 then Float32.infinity else Float32.opp Float32.infinity
    else
      Float32.quiet_NaN
  else
    let result :=
      Double64.to_float
        (Double64.mul
           (Double64.of_float
              (Float32.add (Float32.of_int 1)
                 (Float32.div (Float32.of_int mantissa) (Float32.of_int 1024))))
           (Double64.pow2 (exponent - 15))) in
    if sign =? 0 then result else Float32.opp result.

(** The half encoding assembled at each [return] of
    [float_to_half_manual]: a [uint32_t] expression narrowed to [uint16_t]. *)
Definition half_of_fields (sign new_exponent new_mantissa : Z) : Z :=
  wrap16 (Z.lor (Z.lor (Z.shiftl sign 15) (Z.shiftl new_exponent 10)) new_mantissa).

(** [float_to_half_manual] after its [memcpy]: from the bit pattern on. *)
Definition float_to_half_of_bits (bits : Z) : Z :=
  let sign := Z.land (Z.shiftr bits 31) 0x1 in
  let exponent := Z.land (Z.shiftr bits 23) 0xff in
  let mantissa := Z.land bits 0x7fffff in
  if exponent =? 255 then
    wrap16 (Z.lor (Z.lor (Z.shiftl sign 15) 0x7c00) (if mantissa =? 0 then 0 else 1))
  else
    let new_exponent := to_int32 (wrap32 (exponent - 127 + 15)) in
    if 31 <=? new_exponent then
      wrap16 (Z.lor (Z.shiftl sign 15) 0x7c00)
    else if new_exponent <=? 0 then
      wrap16 (Z.shiftl sign 15)
    else
      let new_mantissa := wrap16 (Z.shiftr mantissa 13) in
      if Z.land mantissa 0x1000 =? 0 then
        half_of_fields sign new_exponent new_mantissa
      else
        let new_mantissa := wrap16 (new_mantissa + 1) in
        if new_mantissa =? 0x400 then
          let new_mantissa := 0 in
          let new_exponent := to_int32 (wrap32 (new_exponent + 1)) in
          if new_exponent =? 31 then
            wrap16 (Z.lor (Z.shiftl sign 15) 0x7c00)
          else half_of_fields sign new_exponent new_mantissa
        else half_of_fields sign new_exponent new_mantissa.

Definition float_to_half_manual (f : Float32.float) : Z :=
  float_to_half_of_bits (Float32.bits f).

Definition half_to_float (h : Z) : Float32.float := half_to_float_manual h.
Definition float_to_half (f : Float32.float) : Z := float_to_half_manual f.

(** Exponent field and fraction of a half, and the two classes of
    encodings the manual codec does not carry through. *)
Definition half_exponent (h : Z) : Z := (h / 2 ^ 10) mod 2 ^ 5.
Definition half_mantissa (h : Z) : Z := h mod 2 ^ 10.

Definition half_subnormal (h : Z) : bool :=
  (half_exponent h =? 0) && negb (half_mantissa h =? 0).

Definition half_nan (h : Z) : bool :=
  (half_exponent h =? 31) && negb (half_mantissa h =? 0).

(** ** Exceptions *)

Local Open Scope string_scope.

Inductive exn : Type :=
| invalid_argument (what : String.string)   (* std::invalid_argument *)
| HalfutilsError (what : String.string)     (* halfutils::HalfutilsError *)
| bad_function_call.                        (* an empty std::function was called *)

Inductive outcome (A : Type) : Type :=
| Return (a : A)
| Throw (e : exn).
Arguments Return {A} a.
Arguments Throw {A} e.

Definition bind {A B : Type} (c : outcome A) (k : A -> outcome B) : outcome B :=
  match c with
  | Return a => k a
  | Throw e => Throw e
  end.

Notation "x <- c ;; k" := (bind c (fun x => k))
  (at level 61, c at next level, right associativity).

(** ** Scalar half-vector kernels *)

Definition HALFVEC_MAX_DIM : Z := 16000.
Definition max_dimensions : Z := HALFVEC_MAX_DIM.

Definition validate_dimensions (dim : Z) : outcome unit :=
  if dim <=? 0 then Throw (invalid_argument "Dimensions must be positive")
  else if max_dimensions <? dim then
    Throw (invalid_argument "Dimensions exceed maximum allowed")
  else Return tt.

(** A [HalfType*] operand: [None] is [nullptr], [Some a] points at the
    halves [a]. *)
Definition half_ptr : Type := option (list Z).

(** [ax[i]]. *)
Definition at_index (a : list Z) (i : nat) : Z := nth i a 0.

(** The guard [if (ax == nullptr || bx == nullptr) throw ...], followed by
    the rest of the kernel on the two arrays. *)
Definition with_arrays {A : Type} (ax bx : half_ptr)
  (body : list Z -> list Z -> outcome A) : outcome A :=
  match ax, bx with
  | Some a, Some b => body a b
  | _, _ => Throw (invalid_argument "Input arrays cannot be null")
  end.

(** The indices [for (int i = 0; i < dim; i++)] runs through. *)
Definition indices (dim : Z) : list nat := seq 0 (Z.to_nat dim).

Definition l2_squared_distance_default (dim : Z) (ax bx : half_ptr)
  : outcome Float32.float :=
  _ <- validate_dimensions dim ;;
  with_arrays ax bx (fun ax bx =>
    Return
      (fold_left
         (fun distance i =>
            let a := half_to_float (at_index ax i) in
            let b := half_to_float (at_index bx i) in
            let diff := Float32.sub a b in
            Float32.add distance (Float32.mul diff diff))
         (indices dim) Float32.zero)).

Definition inner_product_default (dim : Z) (ax bx : half_ptr)
  : outcome Float32.float :=
  _ <- validate_dimensions dim ;;
  with_arrays ax bx (fun ax bx =>
    Return
      (fold_left
         (fun result i =>
            let a := half_to_float (at_index ax i) in
            let b := half_to_float (at_index bx i) in
            Float32.add result (Float32.mul a b))
         (indices dim) Float32.zero)).

(** The three accumulators of the cosine kernels. *)
Record cosine_sums := CosineSums {
  dot_product : Float32.float; norm_a : Float32.float; norm_b : Float32.float }.

(** The end of both cosine kernels: the zero-norm check and the ratio, a
    [double] division of [(double)dot_product] by the [float] product of the
    two [float] square roots. *)
Definition cosine_result (c : cosine_sums) : outcome Double.double :=
  if Float32.eqb (norm_a c) Float32.zero || Float32.eqb (norm_b c) Float32.zero
  then Throw (invalid_argument "Cannot compute cosine similarity of zero vectors")
  else Return
         (Double.div (Double64.of_float (dot_product c))
            (Double64.of_float
               (Float32.mul (Float32.sqrt (norm_a c)) (Float32.sqrt (norm_b c))))).

(** One element of the scalar loop of the cosine kernels. *)
Definition cosine_element (ax bx : list Z) (c : cosine_sums) (i : nat) : cosine_sums :=
  let a := half_to_float (at_index ax i) in
  let b := half_to_float (at_index bx i) in
  CosineSums (Float32.add (dot_product c) (Float32.mul a b))
             (Float32.add (norm_a c) (Float32.mul a a))
             (Float32.add (norm_b c) (Float32.mul b b)).

Definition cosine_similarity_default (dim : Z) (ax bx : half_ptr)
  : outcome Double.double :=
  _ <- validate_dimensions dim ;;
  with_arrays ax bx (fun ax bx =>
    cosine_result
      (fold_left (cosine_element ax bx) (indices dim)
         (CosineSums Float32.zero Float32.zero Float32.zero))).

Definition l1_distance_default (dim : Z) (ax bx : half_ptr)
  : outcome Float32.float :=
  _ <- validate_dimensions dim ;;
  with_arrays ax bx (fun ax bx =>
    Return
      (fold_left
         (fun distance i =>
            let a := half_to_float (at_index ax i) in
            let b := half_to_float (at_index bx i) in
            Float32.add distance (Float32.abs (Float32.sub a b)))
         (indices dim) Float32.zero)).

(** ** F16C kernels ([halfutils.cpp], under [F16C_SUPPORT])

    A [__m256] register is its eight [float] lanes and a [__m128] its four,
    lowest first; a [__m128i] holding halves is its eight 16-bit lanes. *)

(** [_mm_loadu_si128] of the eight halves at [ax + i]. *)
Definition mm_loadu_si128 (ax : list Z) (i : nat) : list Z :=
  map (fun k => at_index ax (i + k)) (seq 0 8).

(** The VCVTPH2PS conversion of one lane: the IEEE 754 value of the half. *)
Definition cvtph_lane (h : Z) : Float32.float :=
  let sign := Z.odd (Z.shiftr h 15) in
  let exponent := Z.land (Z.shiftr h 10) 0x1f in
  let mantissa := Z.land h 0x3ff in
  if exponent =? 0 then
    binary_normalize Float32.prec Float32.emax (cond_Zopp sign mantissa) (-24) sign
  else if exponent =? 31 then
    if mantissa =? 0 then S754_infinity sign else S754_nan
  else
    binary_normalize Float32.prec Float32.emax
      (cond_Zopp sign (1024 + mantissa)) (exponent - 25) sign.

Definition mm256_cvtph_ps (v : list Z) : list Float32.float := map cvtph_lane v.

Definition lanewise (op : Float32.float -> Float32.float -> Float32.float)
  (a b : list Float32.float) : list Float32.float :=
  map (fun xy => op (fst xy) (snd xy)) (combine a b).

Definition mm256_sub_ps := lanewise Float32.sub.
Definition mm256_mul_ps := lanewise Float32.mul.
Definition mm_add_ps := lanewise Float32.add.

(** [_mm256_and_ps(v, 0x7fffffff in every lane)]: the sign bits cleared. *)
Definition mm256_and_ps_abs_mask (v : list Float32.float) : list Float32.float :=
  map Float32.abs v.

Definition mm256_castps256_ps128 (v : list Float32.float) : list Float32.float :=
  firstn 4 v.
Definition mm256_extractf128_ps_1 (v : list Float32.float) : list Float32.float :=
  skipn 4 v.

Definition lane (v : list Float32.float) (i : nat) : Float32.float :=
  nth i v Float32.zero.

Definition mm_hadd_ps (a b : list Float32.float) : list Float32.float :=
  [Float32.add (lane a 0) (lane a 1); Float32.add (lane a 2) (lane a 3);
   Float32.add (lane b 0) (lane b 1); Float32.add (lane b 2) (lane b 3)].

Definition mm_cvtss_f32 (v : list Float32.float) : Float32.float := lane v 0.

(** The "horizontal sum" sequence shared by the four kernels. *)
Definition horizontal_sum (v : list Float32.float) : Float32.float :=
  let low := mm256_castps256_ps128 v in
  let high := mm256_extractf128_ps_1 v in
  let sum := mm_add_ps low high in
  let sum := mm_hadd_ps sum sum in
  let sum := mm_hadd_ps sum sum in
  mm_cvtss_f32 sum.

(** The indices of [for (; i + 8 <= dim; i += 8)] from [i = 0], and of the
    [for (; i < dim; i++)] that follows it. *)
Definition block_indices (dim : Z) : list nat :=
  map (fun k => (8 * k)%nat) (seq 0 (Z.to_nat dim / 8)).
Definition remainder_indices (dim : Z) : list nat :=
  seq (8 * (Z.to_nat dim / 8)) (Z.to_nat dim mod 8).

Definition l2_squared_distance_f16c (dim : Z) (ax bx : half_ptr)
  : outcome Float32.float :=
  _ <- validate_dimensions dim ;;
  with_arrays ax bx (fun ax bx =>
    let distance :=
      fold_left
        (fun distance i =>
           let a_f32 := mm256_cvtph_ps (mm_loadu_si128 ax i) in
           let b_f32 := mm256_cvtph_ps (mm_loadu_si128 bx i) in
           let diff := mm256_sub_ps a_f32 b_f32 in
           let squared := mm256_mul_ps diff diff in
           Float32.add distance (horizontal_sum squared))
        (block_indices dim) Float32.zero in
    Return
      (fold_left
         (fun distance i =>
            let a := half_to_float (at_index ax i) in
            let b := half_to_float (at_index bx i) in
            let diff := Float32.sub a b in
            Float32.add distance (Float32.mul diff diff))
         (remainder_indices dim) distance)).

Definition inner_product_f16c (dim : Z) (ax bx : half_ptr)
  : outcome Float32.float :=
  _ <- validate_dimensions dim ;;
  with_arrays ax bx (fun ax bx =>
    let result :=
      fold_left
        (fun result i =>
           let a_f32 := mm256_cvtph_ps (mm_loadu_si128 ax i) in
           let b_f32 := mm256_cvtph_ps (mm_loadu_si128 bx i) in
           let product := mm256_mul_ps a_f32 b_f32 in
           Float32.add result (horizontal_sum product))
        (block_indices dim) Float32.zero in
    Return
      (fold_left
         (fun result i =>
            let a := half_to_float (at_index ax i) in
            let b := half_to_float (at_index bx i) in
            Float32.add result (Float32.mul a b))
         (remainder_indices dim) result)).

Definition cosine_similarity_f16c (dim : Z) (ax bx : half_ptr)
  : outcome Double.double :=
  _ <- validate_dimensions dim ;;
  with_arrays ax bx (fun ax bx =>
    let sums :=
      fold_left
        (fun c i =>
           let a_f32 := mm256_cvtph_ps (mm_loadu_si128 ax i) in
           let b_f32 := mm256_cvtph_ps (mm_loadu_si128 bx i) in
           let dot := mm256_mul_ps a_f32 b_f32 in
           let norm_a_sq := mm256_mul_ps a_f32 a_f32 in
           let norm_b_sq := mm256_mul_ps b_f32 b_f32 in
           CosineSums (Float32.add (dot_product c) (horizontal_sum dot))
                      (Float32.add (norm_a c) (horizontal_sum norm_a_sq))
                      (Float32.add (norm_b c) (horizontal_sum norm_b_sq)))
        (block_indices dim)
        (CosineSums Float32.zero Float32.zero Float32.zero) in
    cosine_result (fold_left (cosine_element ax bx) (remainder_indices dim) sums)).

Definition l1_distance_f16c (dim : Z) (ax bx : half_ptr)
  : outcome Float32.float :=
  _ <- validate_dimensions dim ;;
  with_arrays ax bx (fun ax bx =>
    let distance :=
      fold_left
        (fun distance i =>
           let a_f32 := mm256_cvtph_ps (mm_loadu_si128 ax i) in
           let b_f32 := mm256_cvtph_ps (mm_loadu_si128 bx i) in
           let diff := mm256_sub_ps a_f32 b_f32 in
           let abs_diff := mm256_and_ps_abs_mask diff in
           Float32.add distance (horizontal_sum abs_diff))
        (block_indices dim) Float32.zero in
    Return
      (fold_left
         (fun distance i =>
            let a := half_to_float (at_index ax i) in
            let b := half_to_float (at_index bx i) in
            Float32.add distance (Float32.abs (Float32.sub a b)))
         (remainder_indices dim) distance)).

(** ** The dispatcher: the static members of [HalfDistanceCalculator] *)

(** What a function member is bound to. *)
Inductive binding : Type := default_kernel | f16c_kernel.

Record calculator := Calculator {
  l2_squared_distance_func_ : option binding;
  inner_product_func_ : option binding;
  cosine_similarity_func_ : option binding;
  l1_distance_func_ : option binding;
  initialized_ : bool;
  has_f16c_support_ : bool }.

(** The members as their definitions leave them: empty functions, both
    flags false. *)
Definition static_init : calculator :=
  Calculator None None None None false false.

Section Build.
(** Whether the build defines [F16C_SUPPORT], and what CPUID leaf 1
    reports for the F16C bit on the machine that runs the code. *)
Variable F16C_SUPPORT : bool.
Variable cpuid_f16c : bool.

Definition detect_cpu_features (c : calculator) : calculator :=
Calculator (l2_squared_distance_func_ c) (inner_product_func_ c)
  (cosine_similarity_func_ c) (l1_distance_func_ c) (initialized_ c)
  (if F16C_SUPPORT then cpuid_f16c else false).

Definition initialize (c : calculator) : calculator :=
if initialized_ c then c
else
  let c := detect_cpu_features c in
  if F16C_SUPPORT && has_f16c_support_ c then
    Calculator (Some f16c_kernel) (Some f16c_kernel) (Some f16c_kernel)
      (Some f16c_kernel) true (has_f16c_support_ c)
  else
    Calculator (Some default_kernel) (Some default_kernel) (Some default_kernel)
      (Some default_kernel) true (has_f16c_support_ c).

End Build.

Definition not_initialized : exn :=
  HalfutilsError "Halfutils not initialized. Call initialize() first.".

(** Calling a function member. *)
Definition call {A : Type} (f : option binding)
  (default f16c : Z -> half_ptr -> half_ptr -> outcome A)
  (dim : Z) (ax bx : half_ptr) : outcome A :=
  match f with
  | Some default_kernel => default dim ax bx
  | Some f16c_kernel => f16c dim ax bx
  | None => Throw bad_function_call
  end.

Definition l2_squared_distance (c : calculator) (dim : Z) (ax bx : half_ptr)
  : outcome Float32.float :=
  if negb (initialized_ c) then Throw not_initialized
  else call (l2_squared_distance_func_ c)
         l2_squared_distance_default l2_squared_distance_f16c dim ax bx.

Definition inner_product (c : calculator) (dim : Z) (ax bx : half_ptr)
  : outcome Float32.float :=
  if negb (initialized_ c) then Throw not_initialized
  else call (inner_product_func_ c) inner_product_default inner_product_f16c dim ax bx.

Definition cosine_similarity (c : calculator) (dim : Z) (ax bx : half_ptr)
  : outcome Double.double :=
  if negb (initialized_ c) then Throw not_initialized
  else call (cosine_similarity_func_ c)
         cosine_similarity_default cosine_similarity_f16c dim ax bx.

Definition l1_distance (c : calculator) (dim : Z) (ax bx : half_ptr)
  : outcome Float32.float :=
  if negb (initialized_ c) then Throw not_initialized
  else call (l1_distance_func_ c) l1_distance_default l1_distance_f16c dim ax bx.

(** ** Reference sums of the cosine kernel

    The dot product and the squared norm of half vectors, accumulated in
    single precision from [acc], element by element. *)
Definition dot_from (acc : Float32.float) (a b : list Z) : Float32.float :=
  fold_left
    (fun acc xy =>
       Float32.add acc (Float32.mul (half_to_float (fst xy)) (half_to_float (snd xy))))
    (combine a b) acc.

Definition squared_norm_from (acc : Float32.float) (a : list Z) : Float32.float :=
  fold_left
    (fun acc x => Float32.add acc (Float32.mul (half_to_float x) (half_to_float x)))
    a acc.

Definition dot_f32 : list Z -> list Z -> Float32.float := dot_from Float32.zero.
Definition squared_norm_f32 : list Z -> Float32.float := squared_norm_from Float32.zero.

(** A half vector all of whose elements are zeros ([0x0000] or [0x8000]). *)
Definition zero_half_vector (a : list Z) : Prop :=
  Forall (fun h => h = 0x0000 \/ h = 0x8000) a.

(** The message of the rejection of [(dim, ax, bx)], by the order of the
    checks. *)
Definition rejection (dim : Z) : String.string :=
  if dim <=? 0 then "Dimensions must be positive"
  else if 16000 <? dim then "Dimensions exceed maximum allowed"
  else "Input arrays cannot be null".

(** ** The encoder as the specification words it

    Sign, biased exponent and fraction of the 32-bit source, as numbers. *)
Definition f32_sign (bits : Z) : Z := bits / 2 ^ 31.
Definition f32_exponent (bits : Z) : Z := (bits / 2 ^ 23) mod 2 ^ 8.
Definition f32_mantissa (bits : Z) : Z := bits mod 2 ^ 23.

(** A half with sign [s], exponent field [e] and fraction [m]. *)
Definition half_pack (s e m : Z) : Z := s * 2 ^ 15 + e * 2 ^ 10 + m.

Definition floatToHalf_spec (bits : Z) : Z :=
  let s := f32_sign bits in
  let exponent := f32_exponent bits in
  let mantissa := f32_mantissa bits in
  if exponent =? 255 then
    (* infinity or NaN, with the sign and a flag for a nonzero fraction *)
    half_pack s 31 (if mantissa =? 0 then 0 else 1)
  else
    let rebiased := exponent - 127 + 15 in
    if 31 <=? rebiased then half_pack s 31 0          (* overflow: infinity *)
    else if rebiased <=? 0 then half_pack s 0 0       (* underflow: zero *)
    else
      let truncated := mantissa / 2 ^ 13 in
      let discarded_bit := (mantissa / 2 ^ 12) mod 2 in
      let rounded := truncated + discarded_bit in      (* round half up *)
      if rounded =? 2 ^ 10 then
        (* the carry goes into the exponent; overflow is checked again *)
        if rebiased + 1 =? 31 then half_pack s 31 0
        else half_pack s (rebiased + 1) 0
      else half_pack s rebiased rounded.

(** * Properties of the half-precision codec *)

Lemma Z_lor_shiftl_add (hi lo k : Z) :
  0 <= k -> 0 <= lo < 2 ^ k -> Z.lor (Z.shiftl hi k) lo = hi * 2 ^ k + lo.
Proof.
  intros Hk Hlo.
  assert (E : Z.land (Z.shiftl hi k) lo = 0).
  { apply Z.bits_inj'. intros i Hi. rewrite Z.land_spec, Z.bits_0.
    destruct (Z.lt_ge_cases i k) as [Hik|Hik].
    - now rewrite Z.shiftl_spec_low.
    - rewrite <- (Z.mod_small lo (2 ^ k)) by exact Hlo.
      rewrite Z.mod_pow2_bits_high by lia. apply andb_false_r. }
  rewrite <- (Z.lxor_lor _ _ E), <- (Z.add_nocarry_lxor _ _ E).
  now rewrite Z.shiftl_mul_pow2.
Qed.

Lemma Z_land_bit (a n : Z) :
  0 <= n -> Z.land a (2 ^ n) = if Z.testbit a n then 2 ^ n else 0.
Proof.
  intros Hn. apply Z.bits_inj'. intros i Hi.
  rewrite Z.land_spec, Z.pow2_bits_eqb by exact Hn.
  destruct (Z.eqb_spec n i) as [->|Hni].
  - destruct (Z.testbit a i); [now rewrite Z.pow2_bits_true | now rewrite Z.bits_0].
  - rewrite andb_false_r.
    destruct (Z.testbit a n); [now rewrite Z.pow2_bits_false | now rewrite Z.bits_0].
Qed.

Lemma wrap16_small (z : Z) : 0 <= z < 2 ^ 16 -> wrap16 z = z.
Proof. intros H. unfold wrap16. now apply Z.mod_small. Qed.

Lemma to_int32_wrap32 (z : Z) : - 2 ^ 31 <= z < 2 ^ 31 -> to_int32 (wrap32 z) = z.
Proof.
  intros H. unfold to_int32, wrap32.
  change (2 ^ 31) with 2147483648 in *. change (2 ^ 32) with 4294967296.
  destruct (Z.ltb_spec (z mod 4294967296) 2147483648);
    Z.div_mod_to_equations; lia.
Qed.

(** The three fields the encoder extracts are the numeric fields. *)
Lemma float_fields (bits : Z) :
  0 <= bits < 2 ^ 32 ->
  Z.land (Z.shiftr bits 31) 0x1 = f32_sign bits
  /\ Z.land (Z.shiftr bits 23) 0xff = f32_exponent bits
  /\ Z.land bits 0x7fffff = f32_mantissa bits.
Proof.
  intros H. unfold f32_sign, f32_exponent, f32_mantissa.
  change 0x1 with (Z.ones 1). change 0xff with (Z.ones 8).
  change 0x7fffff with (Z.ones 23).
  rewrite !Z.land_ones, !Z.shiftr_div_pow2 by lia.
  repeat split; try reflexivity.
  apply Z.mod_small.
  change (2 ^ 31) with 2147483648. change (2 ^ 32) with 4294967296 in H.
  change (2 ^ 1) with 2. Z.div_mod_to_equations. lia.
Qed.

Lemma half_of_fields_pack (s e m : Z) :
  0 <= s <= 1 -> 0 <= e < 32 -> 0 <= m < 2 ^ 10 ->
  half_of_fields s e m = half_pack s e m.
Proof.
  intros Hs He Hm. unfold half_of_fields, half_pack.
  change (2 ^ 10) with 1024 in *.
  assert (E1 : Z.lor (Z.shiftl s 15) (Z.shiftl e 10) = s * 2 ^ 15 + e * 2 ^ 10).
  { rewrite (Z.shiftl_mul_pow2 e 10) by lia.
    apply Z_lor_shiftl_add; [lia|]. change (2 ^ 10) with 1024. change (2 ^ 15) with 32768. lia. }
  rewrite E1.
  replace (s * 2 ^ 15 + e * 2 ^ 10) with (Z.shiftl (s * 32 + e) 10)
    by (rewrite Z.shiftl_mul_pow2 by lia; change (2 ^ 15) with (32 * 2 ^ 10); ring).
  rewrite Z_lor_shiftl_add by (change (2 ^ 10) with 1024; lia).
  change (2 ^ 10) with 1024. change (2 ^ 15) with 32768.
  rewrite wrap16_small by (change (2 ^ 16) with 65536; lia). ring.
Qed.

Lemma half_inf_pack (s flag : Z) :
  0 <= s <= 1 -> 0 <= flag <= 1 ->
  wrap16 (Z.lor (Z.lor (Z.shiftl s 15) 0x7c00) flag) = half_pack s 31 flag.
Proof.
  intros Hs Hf. rewrite <- half_of_fields_pack by (change (2 ^ 10) with 1024; lia).
  reflexivity.
Qed.

Lemma half_inf_pack0 (s : Z) :
  0 <= s <= 1 -> wrap16 (Z.lor (Z.shiftl s 15) 0x7c00) = half_pack s 31 0.
Proof.
  intros Hs. rewrite <- (half_inf_pack s 0) by lia. now rewrite Z.lor_0_r.
Qed.

Lemma half_zero_pack (s : Z) : 0 <= s <= 1 -> wrap16 (Z.shiftl s 15) = half_pack s 0 0.
Proof.
  intros Hs. rewrite <- half_of_fields_pack by (change (2 ^ 10) with 1024; lia).
  unfold half_of_fields. now rewrite Z.shiftl_0_l, !Z.lor_0_r.
Qed.

Lemma discarded_bit_test (mantissa : Z) :
  (Z.land mantissa 0x1000 =? 0) = ((mantissa / 2 ^ 12) mod 2 =? 0).
Proof.
  change 0x1000 with (2 ^ 12). rewrite Z_land_bit by lia.
  rewrite <- (Z.testbit_spec' mantissa 12) by lia.
  destruct (Z.testbit mantissa 12); reflexivity.
Qed.

(** C7.  On every 32-bit pattern the encoder computes what the
    specification describes: exponent 255 gives infinity or NaN with the
    sign and a nonzero-fraction flag; otherwise the exponent is rebiased
    from 127 to 15, overflows to infinity at 31 and above and underflows
    to signed zero at 0 and below; otherwise the fraction is truncated to
    10 bits and rounded half up on the discarded bit, a carry increments
    the exponent, and overflow to infinity is checked again. *)
Theorem float_to_half_refines_spec (bits : Z) (Hbits : 0 <= bits < 2 ^ 32) :
  float_to_half_of_bits bits = floatToHalf_spec bits.
Proof.
  destruct (float_fields bits Hbits) as (Es & Ee & Em).
  unfold float_to_half_of_bits, floatToHalf_spec.
  rewrite Es, Ee, Em. clear Es Ee Em.
  assert (Hs : 0 <= f32_sign bits <= 1).
  { unfold f32_sign. change (2 ^ 31) with 2147483648.
    change (2 ^ 32) with 4294967296 in Hbits. Z.div_mod_to_equations. lia. }
  assert (He : 0 <= f32_exponent bits < 256).
  { unfold f32_exponent. apply Z.mod_pos_bound. reflexivity. }
  assert (Hm : 0 <= f32_mantissa bits < 2 ^ 23).
  { unfold f32_mantissa. apply Z.mod_pos_bound. reflexivity. }
  generalize dependent (f32_sign bits). generalize dependent (f32_exponent bits).
  generalize dependent (f32_mantissa bits). clear bits Hbits.
  intros mantissa Hm exponent He s Hs. cbv zeta.
  change (2 ^ 23) with 8388608 in Hm.
  destruct (Z.eqb_spec exponent 255) as [E255|N255].
  { apply half_inf_pack; [exact Hs|]. destruct (mantissa =? 0); lia. }
  rewrite to_int32_wrap32 by (change (2 ^ 31) with 2147483648; lia).
  destruct (Z.leb_spec 31 (exponent - 127 + 15)) as [Hover|Hin].
  { now apply half_inf_pack0. }
  destruct (Z.leb_spec (exponent - 127 + 15) 0) as [Hunder|Hpos].
  { now apply half_zero_pack. }
  assert (Ht : 0 <= mantissa / 2 ^ 13 < 1024)
    by (change (2 ^ 13) with 8192; Z.div_mod_to_equations; lia).
  assert (Hd : 0 <= (mantissa / 2 ^ 12) mod 2 <= 1)
    by (Z.div_mod_to_equations; lia).
  rewrite Z.shiftr_div_pow2 by lia.
  rewrite (wrap16_small (mantissa / 2 ^ 13)) by (change (2 ^ 16) with 65536; lia).
  rewrite discarded_bit_test.
  destruct (Z.eqb_spec ((mantissa / 2 ^ 12) mod 2) 0) as [D0|D1].
  { rewrite D0, Z.add_0_r.
    destruct (Z.eqb_spec (mantissa / 2 ^ 13) (2 ^ 10)) as [C|C];
      [change (2 ^ 10) with 1024 in C; lia|].
    apply half_of_fields_pack; [exact Hs | lia | exact Ht]. }
  assert (D : (mantissa / 2 ^ 12) mod 2 = 1) by lia. rewrite D.
  rewrite (wrap16_small (mantissa / 2 ^ 13 + 1)) by (change (2 ^ 16) with 65536; lia).
  change 0x400 with (2 ^ 10).
  destruct (Z.eqb_spec (mantissa / 2 ^ 13 + 1) (2 ^ 10)) as [C|C].
  - rewrite to_int32_wrap32 by (change (2 ^ 31) with 2147483648; lia).
    destruct (Z.eqb_spec (exponent - 127 + 15 + 1) 31) as [O|O].
    + now apply half_inf_pack0.
    + apply half_of_fields_pack; [exact Hs | lia | change (2 ^ 10) with 1024; lia].
  - apply half_of_fields_pack; [exact Hs | lia | change (2 ^ 10) with 1024 in *; lia].
Qed.

Lemma float_to_half_refines_spec_witness :
  float_to_half_of_bits 0x477fffff = floatToHalf_spec 0x477fffff.
Proof. apply (float_to_half_refines_spec 0x477fffff). vm_compute. split; [discriminate | reflexivity]. Defined.

(** ** Round trip through the manual codec *)

Definition round_trip_check (h : Z) : bool :=
  half_subnormal h || half_nan h || (float_to_half (half_to_float h) =? h).

(** A check on every integer of [lo, lo + 2 ^ k), by halving the range. *)
Fixpoint range_all (k : nat) (lo : Z) (f : Z -> bool) : bool :=
  match k with
  | O => f lo
  | S k' => range_all k' lo f && range_all k' (lo + 2 ^ Z.of_nat k') f
  end.

Lemma range_all_spec (k : nat) :
  forall (lo : Z) (f : Z -> bool),
  range_all k lo f = true ->
  forall h, lo <= h < lo + 2 ^ Z.of_nat k -> f h = true.
Proof.
  induction k as [|k IH]; intros lo f Hall h Hh.
  - cbn in Hall, Hh. now replace h with lo by lia.
  - cbn [range_all] in Hall. apply andb_prop in Hall. destruct Hall as [H1 H2].
    rewrite Nat2Z.inj_succ, Z.pow_succ_r in Hh by lia.
    destruct (Z.lt_ge_cases h (lo + 2 ^ Z.of_nat k)) as [Hlow|Hhigh].
    + apply (IH lo f H1). lia.
    + apply (IH _ f H2). lia.
Qed.

Lemma round_trip_all_halves : range_all 16 0 round_trip_check = true.
Proof. vm_compute. reflexivity. Qed.

(** C2, as the code has it.  Every half that is a signed zero, a normal
    number or an infinity comes back from [halfToFloat] then [floatToHalf]
    with the identical bit pattern. *)
Theorem half_round_trip (h : Z)
  (Hh : 0 <= h < 2 ^ 16)
  (Hsub : half_subnormal h = false) (Hnan : half_nan h = false) :
  float_to_half (half_to_float h) = h.
Proof.
  pose proof (range_all_spec 16 0 round_trip_check round_trip_all_halves h Hh) as Hall.
  unfold round_trip_check in Hall.
  rewrite Hsub, Hnan in Hall. cbn [orb] in Hall.
  now apply Z.eqb_eq.
Qed.

Lemma half_round_trip_witness : float_to_half (half_to_float 0x7bff) = 0x7bff.
Proof.
  apply (half_round_trip 0x7bff); [split; [discriminate | reflexivity] | reflexivity | reflexivity].
Defined.

(** The round trip fails on subnormals and on NaNs: the smallest subnormal
    [0x0001] is decoded as [1/1024] and comes back as the normal half
    [0x1400]; the NaN [0x7e00] comes back as [0x7c01]. *)
Lemma half_round_trip_fails :
  float_to_half (half_to_float 0x0001) <> 0x0001
  /\ float_to_half (half_to_float 0x7e00) <> 0x7e00.
Proof. split; vm_compute; discriminate. Qed.


(** * Properties of the half-vector kernels and of the dispatcher *)

Ltac reject_case :=
  unfold validate_dimensions, max_dimensions, HALFVEC_MAX_DIM, rejection, with_arrays, bind;
  repeat match goal with
  | |- context [?a <=? ?b] => destruct (Z.leb_spec a b); try lia
  | |- context [?a <? ?b] => destruct (Z.ltb_spec a b); try lia
  end;
  try reflexivity.

(** C5.  With a dimension that is not positive or exceeds 16000, or with a
    null operand, each half-vector kernel (scalar and F16C) throws
    [std::invalid_argument]; no value is returned, and the outcome is the
    same whatever the operands hold. *)
Theorem half_kernels_reject_invalid_arguments
  (dim : Z) (ax bx : half_ptr)
  (Hbad : dim <= 0 \/ 16000 < dim \/ ax = None \/ bx = None) :
  l2_squared_distance_default dim ax bx = Throw (invalid_argument (rejection dim))
  /\ inner_product_default dim ax bx = Throw (invalid_argument (rejection dim))
  /\ cosine_similarity_default dim ax bx = Throw (invalid_argument (rejection dim))
  /\ l1_distance_default dim ax bx = Throw (invalid_argument (rejection dim))
  /\ l2_squared_distance_f16c dim ax bx = Throw (invalid_argument (rejection dim))
  /\ inner_product_f16c dim ax bx = Throw (invalid_argument (rejection dim))
  /\ cosine_similarity_f16c dim ax bx = Throw (invalid_argument (rejection dim))
  /\ l1_distance_f16c dim ax bx = Throw (invalid_argument (rejection dim)).
Proof.
  unfold l2_squared_distance_default, inner_product_default, cosine_similarity_default,
    l1_distance_default, l2_squared_distance_f16c, inner_product_f16c,
    cosine_similarity_f16c, l1_distance_f16c.
  destruct Hbad as [H|[H|[H|H]]].
  - repeat split; reject_case.
  - repeat split; reject_case.
  - subst ax. repeat split; reject_case.
  - subst bx. destruct ax; repeat split; reject_case.
Qed.

Lemma half_kernels_reject_invalid_arguments_witness :
  cosine_similarity_default 16001 (Some [0x3c00]) (Some [0x3c00])
  = Throw (invalid_argument "Dimensions exceed maximum allowed").
Proof.
  refine (proj1 (proj2 (proj2
    (half_kernels_reject_invalid_arguments 16001 (Some [0x3c00]) (Some [0x3c00]) _)))).
  right. left. reflexivity.
Defined.

(** ** The cosine kernel *)

Lemma fold_left_map {A B C : Type} (f : A -> B -> A) (g : C -> B) (l : list C) :
  forall a, fold_left f (map g l) a = fold_left (fun a x => f a (g x)) l a.
Proof. induction l as [|x l IH]; intros a; [reflexivity|]. cbn. apply IH. Qed.

(** The fused loop over the indices computes the three sums. *)
Lemma cosine_fold (a : list Z) :
  forall (b : list Z) (c : cosine_sums),
  length a = length b ->
  fold_left (cosine_element a b) (seq 0 (length a)) c
  = CosineSums (dot_from (dot_product c) a b)
               (squared_norm_from (norm_a c) a)
               (squared_norm_from (norm_b c) b).
Proof.
  induction a as [|x a IH]; intros [|y b] c Hl; try discriminate.
  - destruct c; reflexivity.
  - cbn [length seq fold_left].
    rewrite <- seq_shift, fold_left_map.
    rewrite (fold_left_ext_in _ (cosine_element a b)) by reflexivity.
    rewrite IH by (injection Hl; auto).
    reflexivity.
Qed.

Lemma squared_norm_zero_vector (a : list Z) :
  zero_half_vector a -> squared_norm_from Float32.zero a = Float32.zero.
Proof.
  unfold squared_norm_from.
  induction 1 as [|h a [Hh|Hh] Ha IH]; [reflexivity | |]; subst h; cbn [fold_left];
    exact IH.
Qed.

(** C6.  For a valid dimension and two half vectors of that length, the
    cosine kernel throws [std::invalid_argument] exactly when the squared
    norm of [a] or of [b], accumulated in single precision, compares equal
    to zero, and otherwise returns the dot product divided, in double
    precision, by the product of the square roots of the two squared norms;
    in particular it throws when [a] or [b] is all zeros. *)
Theorem cosine_similarity_default_spec
  (dim : Z) (a b : list Z)
  (Hdim : 0 < dim <= 16000)
  (Ha : Z.of_nat (length a) = dim) (Hb : Z.of_nat (length b) = dim) :
  cosine_similarity_default dim (Some a) (Some b)
  = (if Float32.eqb (squared_norm_f32 a) Float32.zero
        || Float32.eqb (squared_norm_f32 b) Float32.zero
     then Throw (invalid_argument "Cannot compute cosine similarity of zero vectors")
     else Return
            (Double.div (Double64.of_float (dot_f32 a b))
               (Double64.of_float
                  (Float32.mul (Float32.sqrt (squared_norm_f32 a))
                               (Float32.sqrt (squared_norm_f32 b))))))
  /\ (zero_half_vector a \/ zero_half_vector b ->
      cosine_similarity_default dim (Some a) (Some b)
      = Throw (invalid_argument "Cannot compute cosine similarity of zero vectors")).
Proof.
  assert (E : cosine_similarity_default dim (Some a) (Some b)
              = cosine_result (CosineSums (dot_f32 a b) (squared_norm_f32 a)
                                          (squared_norm_f32 b))).
  { unfold cosine_similarity_default, validate_dimensions, max_dimensions,
      HALFVEC_MAX_DIM, bind, with_arrays, indices.
    destruct (Z.leb_spec dim 0); [lia|]. destruct (Z.ltb_spec 16000 dim); [lia|].
    replace (Z.to_nat dim) with (length a) by lia.
    rewrite cosine_fold by lia. reflexivity. }
  split; [exact E|].
  intros Hzero. rewrite E. unfold cosine_result. cbn [norm_a norm_b].
  destruct Hzero as [Hz|Hz]; unfold squared_norm_f32;
    rewrite (squared_norm_zero_vector _ Hz).
  - reflexivity.
  - now rewrite orb_true_r.
Qed.

Lemma cosine_similarity_default_spec_witness :
  cosine_similarity_default 2 (Some [0x0000; 0x8000]) (Some [0x3c00; 0x4000])
  = Throw (invalid_argument "Cannot compute cosine similarity of zero vectors").
Proof.
  refine (proj2 (cosine_similarity_default_spec 2 [0x0000; 0x8000] [0x3c00; 0x4000]
                   _ eq_refl eq_refl) _).
  - split; [reflexivity | discriminate].
  - left. apply Forall_cons; [left; reflexivity|].
    apply Forall_cons; [right; reflexivity | apply Forall_nil].
Defined.

(** ** The dispatcher *)

(** C9.  While the calculator is not initialized, each of the four public
    entry points throws [HalfutilsError] and computes nothing; and
    [initialize()] on an initialized calculator changes nothing, so a second
    call leaves the bindings of the first. *)
Theorem dispatcher_requires_initialization
  (c : calculator) (dim : Z) (ax bx : half_ptr)
  (Hc : initialized_ c = false) :
  l2_squared_distance c dim ax bx = Throw not_initialized
  /\ inner_product c dim ax bx = Throw not_initialized
  /\ cosine_similarity c dim ax bx = Throw not_initialized
  /\ l1_distance c dim ax bx = Throw not_initialized
  /\ (forall F16C_SUPPORT cpuid_f16c : bool,
      initialized_ (initialize F16C_SUPPORT cpuid_f16c c) = true)
  /\ (forall F16C_SUPPORT cpuid_f16c cpuid_f16c' : bool,
      initialize F16C_SUPPORT cpuid_f16c' (initialize F16C_SUPPORT cpuid_f16c c)
      = initialize F16C_SUPPORT cpuid_f16c c).
Proof.
  unfold l2_squared_distance, inner_product, cosine_similarity, l1_distance.
  rewrite Hc. cbn [negb].
  repeat split.
  - intros F cpu. unfold initialize. rewrite Hc.
    destruct (F && _); reflexivity.
  - intros F cpu cpu'. unfold initialize at 1.
    replace (initialized_ (initialize F cpu c)) with true; [reflexivity|].
    unfold initialize. rewrite Hc. destruct (F && _); reflexivity.
Qed.

Lemma dispatcher_requires_initialization_witness :
  l2_squared_distance static_init 3 (Some [0x3c00; 0x4000; 0x4200])
    (Some [0x3c00; 0x4000; 0x4200])
  = Throw not_initialized.
Proof.
  exact (proj1 (dispatcher_requires_initialization static_init 3
                  (Some [0x3c00; 0x4000; 0x4200]) (Some [0x3c00; 0x4000; 0x4200])
                  eq_refl)).
Defined.

(** * Further properties of the bit-vector kernels *)

Local Open Scope N_scope.

Lemma count_bits_comm (op : N -> N -> N) :
  (forall x y, op x y = op y x) ->
  forall a b : list byte, count_bits op a b = count_bits op b a.
Proof.
  intros Hop a. induction a as [|x a IH]; intros [|y b]; cbn [count_bits]; try reflexivity.
  now rewrite Hop, IH.
Qed.

Lemma xor_bits_self (a : list byte) : xor_bits a a = 0.
Proof.
  unfold xor_bits. induction a as [|x a IH]; [reflexivity|].
  cbn [count_bits]. now rewrite N.lxor_nilpotent, IH.
Qed.

Lemma count_bits_app (op : N -> N -> N) (a1 b1 a2 b2 : list byte) :
  length a1 = length b1 ->
  count_bits op (a1 ++ a2) (b1 ++ b2) = count_bits op a1 b1 + count_bits op a2 b2.
Proof.
  revert b1. induction a1 as [|x a1 IH]; intros [|y b1] Hl; try discriminate.
  - reflexivity.
  - cbn [app count_bits]. rewrite IH by (injection Hl; auto). ring.
Qed.

(** The scalar Hamming distance is symmetric in its two buffers, and the
    distance of a buffer to itself is the seed. *)
Theorem hamming_distance_default_symmetric
  (bytes : N) (a b : list byte) (seed : N)
  (Ha : N.of_nat (length a) = bytes) (Hb : N.of_nat (length b) = bytes)
  (Hseed : seed < 2 ^ 64) :
  hamming_distance_default bytes a b seed = hamming_distance_default bytes b a seed
  /\ hamming_distance_default bytes a a seed = seed.
Proof.
  assert (Hla : length a = N.to_nat bytes) by lia.
  assert (Hlb : length b = N.to_nat bytes) by lia.
  rewrite <- (N2Nat.id bytes).
  pose proof (hamming_default_counts _ a b seed Hla Hlb Hseed) as Eab.
  pose proof (hamming_default_counts _ b a seed Hlb Hla Hseed) as Eba.
  pose proof (hamming_default_counts _ a a seed Hla Hla Hseed) as Eaa.
  split.
  - rewrite Eab, Eba. unfold xor_bits. now rewrite (count_bits_comm N.lxor N.lxor_comm).
  - rewrite Eaa, xor_bits_self, N.add_0_r. now apply wrap64_small.
Qed.

Lemma hamming_distance_default_symmetric_witness :
  hamming_distance_default 9 (repeat xa5 9) (repeat x3c 9) 7
  = hamming_distance_default 9 (repeat x3c 9) (repeat xa5 9) 7.
Proof.
  exact (proj1 (hamming_distance_default_symmetric 9 (repeat xa5 9) (repeat x3c 9) 7
                  eq_refl eq_refl eq_refl)).
Defined.

(** The seed accumulates a distance over consecutive segments: the distance
    over two buffers each cut in two is the distance over the second
    segments, seeded with the distance over the first. *)
Theorem hamming_distance_default_segments
  (a1 b1 a2 b2 : list byte) (seed : N)
  (H1 : length a1 = length b1) (H2 : length a2 = length b2)
  (Hseed : seed < 2 ^ 64) :
  hamming_distance_default (N.of_nat (length (a1 ++ a2))) (a1 ++ a2) (b1 ++ b2) seed
  = hamming_distance_default (N.of_nat (length a2)) a2 b2
      (hamming_distance_default (N.of_nat (length a1)) a1 b1 seed).
Proof.
  rewrite (hamming_default_counts (length (a1 ++ a2)) (a1 ++ a2) (b1 ++ b2) seed)
    by (rewrite ?length_app; congruence).
  rewrite (hamming_default_counts (length a1) a1 b1 seed) by congruence.
  rewrite (hamming_default_counts (length a2) a2 b2)
    by (congruence || apply N.mod_upper_bound; discriminate).
  rewrite wrap64_add_l. unfold xor_bits.
  rewrite (count_bits_app N.lxor a1 b1 a2 b2 H1). f_equal. ring.
Qed.

Lemma hamming_distance_default_segments_witness :
  hamming_distance_default 11 (repeat xff 8 ++ repeat x0f 3) (repeat x00 8 ++ repeat x01 3) 5
  = hamming_distance_default 3 (repeat x0f 3) (repeat x01 3)
      (hamming_distance_default 8 (repeat xff 8) (repeat x00 8) 5).
Proof.
  exact (hamming_distance_default_segments (repeat xff 8) (repeat x00 8)
           (repeat x0f 3) (repeat x01 3) 5 eq_refl eq_refl eq_refl).
Defined.

(** With seed zero the scalar Hamming distance is at most the number of
    bits of the buffers. *)
Theorem hamming_distance_default_bound
  (bytes : N) (a b : list byte)
  (Ha : N.of_nat (length a) = bytes) (Hb : N.of_nat (length b) = bytes)
  (Hbytes : bytes < 2 ^ 32) :
  hamming_distance_default bytes a b 0 <= 8 * bytes.
Proof.
  assert (Hla : length a = N.to_nat bytes) by lia.
  assert (Hlb : length b = N.to_nat bytes) by lia.
  pose proof (hamming_default_counts _ a b 0 Hla Hlb eq_refl) as E.
  rewrite N2Nat.id in E.
  pose proof (count_bits_bound N.lxor xorb eq_refl N.lxor_spec a b) as Hbound.
  rewrite E, N.add_0_l. fold (xor_bits a b) in Hbound.
  rewrite wrap64_small; [lia|].
  change (2 ^ 32) with 4294967296 in Hbytes.
  change (2 ^ 64) with 18446744073709551616. lia.
Qed.

Lemma hamming_distance_default_bound_witness :
  hamming_distance_default 16 (repeat xff 16) (repeat x00 16) 0 <= 8 * 16.
Proof.
  exact (hamming_distance_default_bound 16 (repeat xff 16) (repeat x00 16)
           eq_refl eq_refl eq_refl).
Defined.

(** Splitting a byte count into full 64-byte blocks and a remainder. *)
Lemma blocks_and_remainder (n : nat) :
  exists q r : nat, (r < 64)%nat /\ n = (64 * q + r)%nat /\ r = (n mod 64)%nat.
Proof.
  exists (n / 64)%nat, (n mod 64)%nat. split; [|split].
  - apply Nat.mod_upper_bound. discriminate.
  - apply Nat.div_mod_eq.
  - reflexivity.
Qed.

(** The accelerated Hamming kernel returns what the scalar kernel returns,
    on every pair of buffers of the given byte count and every seed. *)
Theorem hamming_avx512_equals_default
  (bytes : N) (a b : list byte) (seed : N)
  (Ha : N.of_nat (length a) = bytes) (Hb : N.of_nat (length b) = bytes)
  (Hseed : seed < 2 ^ 64) :
  hamming_distance_avx512_popcount bytes a b seed
  = hamming_distance_default bytes a b seed.
Proof.
  destruct (blocks_and_remainder (length a)) as (q & r & Hr & Hn & _).
  subst bytes. rewrite Hn.
  apply hamming_avx512_agrees; [exact Hr | exact Hn | lia | exact Hseed].
Qed.

Lemma hamming_avx512_equals_default_witness :
  hamming_distance_avx512_popcount 65 (repeat xff 65) (repeat x0f 65) 3
  = hamming_distance_default 65 (repeat xff 65) (repeat x0f 65) 3.
Proof.
  exact (hamming_avx512_equals_default 65 (repeat xff 65) (repeat x0f 65) 3
           eq_refl eq_refl eq_refl).
Defined.

(** The accelerated Jaccard kernel returns what the scalar kernel returns
    whenever no remainder follows full blocks: for a byte count below 64,
    and for a byte count that is a multiple of 64. *)
Theorem jaccard_avx512_equals_default_without_remainder
  (bytes : N) (a b : list byte) (andSeed normA normB : N)
  (Ha : N.of_nat (length a) = bytes) (Hb : N.of_nat (length b) = bytes)
  (Hseed : andSeed < 2 ^ 64)
  (Hbytes : bytes < 64 \/ bytes mod 64 = 0) :
  jaccard_distance_avx512_popcount bytes a b andSeed normA normB
  = jaccard_distance_default bytes a b andSeed normA normB.
Proof.
  destruct (blocks_and_remainder (length a)) as (q & r & Hr & Hn & Hmod).
  subst bytes. rewrite Hn.
  apply jaccard_avx512_agrees_without_remainder;
    [exact Hr | exact Hn | lia | exact Hseed |].
  destruct Hbytes as [Hlt|Hz].
  - left. lia.
  - right. rewrite Hmod.
    apply Nat2N.inj. rewrite Nat2N.inj_mod. exact Hz.
Qed.

Lemma jaccard_avx512_equals_default_without_remainder_witness :
  jaccard_distance_avx512_popcount 128 (repeat xff 128) (repeat x0f 128) 0 0 0
  = jaccard_distance_default 128 (repeat xff 128) (repeat x0f 128) 0 0 0.
Proof.
  apply (jaccard_avx512_equals_default_without_remainder
           128 (repeat xff 128) (repeat x0f 128) 0 0 0 eq_refl eq_refl eq_refl).
  right. reflexivity.
Defined.

(** ** A buffer against itself *)

Section DoubleRatio.
Local Open Scope Z_scope.

Lemma digits2_pos_iter_xO (p k : positive) :
  digits2_pos (Pos.iter xO p k) = (digits2_pos p + k)%positive.
Proof.
  induction k as [|k IH] using Pos.peano_ind.
  - cbn. lia.
  - rewrite Pos.iter_succ. cbn [digits2_pos]. rewrite IH. lia.
Qed.

Lemma digits2_pos_size (p : positive) : digits2_pos p = Pos.size p.
Proof. induction p as [p IH|p IH|]; cbn; now rewrite ?IH. Qed.

Lemma digits2_pos_bound (p : positive) (k : Z) :
  0 <= k -> Z.pos p < 2 ^ k -> Z.pos (digits2_pos p) <= k.
Proof.
  intros Hk Hp. rewrite digits2_pos_size.
  pose proof (Pos.size_le p) as Hs.
  apply Pos2Z.pos_le_pos in Hs. rewrite Pos2Z.inj_pow in Hs.
  change (Z.pos p~0) with (2 * Z.pos p) in Hs.
  assert (Hlt : 2 ^ Z.pos (Pos.size p) < 2 ^ (k + 1)).
  { rewrite Z.pow_add_r by lia. change (2 ^ 1) with 2. lia. }
  apply Z.pow_lt_mono_r_iff in Hlt; lia.
Qed.

(** A mantissa of full width is left as it is by rounding. *)
Lemma binary_round_aux_exact (s : bool) (m : positive) (e : Z) :
  Z.pos (digits2_pos m) = 53 -> -1074 <= e <= 971 ->
  binary_round_aux 53 1024 s (Z.pos m) e loc_Exact = S754_finite s m e.
Proof.
  intros Hd He.
  assert (Hshift : shr_fexp 53 1024 (Z.pos m) e loc_Exact
                   = (Build_shr_record (Z.pos m) false false, e)).
  { unfold shr_fexp. cbn [Zdigits2]. rewrite Hd.
    unfold fexp, emin.
    replace (Z.max (53 + e - 53) (3 - 1024 - 53) - e) with 0 by lia.
    reflexivity. }
  unfold binary_round_aux. rewrite Hshift.
  cbn [shr_m loc_of_shr_record round_nearest_even].
  rewrite Hshift. cbn [shr_m].
  destruct (Z.leb_spec e (1024 - 53)); [reflexivity | lia].
Qed.

(** [(double)n] is a finite nonzero value for a positive [n] below [2^53]. *)
Lemma of_uint_finite (p : positive) :
  Z.pos p < 2 ^ 53 ->
  exists m e, Double.of_uint (N.pos p) = S754_finite false m e.
Proof.
  intros Hp. apply digits2_pos_bound in Hp; [|lia].
  unfold Double.of_uint, Double.prec, Double.emax.
  change (Z.of_N (N.pos p)) with (Z.pos p).
  cbn [binary_normalize]. unfold binary_round.
  unfold fexp, emin.
  replace (Z.max (Z.pos (digits2_pos p) + 0 - 53) (3 - 1024 - 53))
    with (Z.pos (digits2_pos p) - 53) by lia.
  unfold shl_align.
  destruct (Z.pos (digits2_pos p) - 53 - 0) as [|k|k] eqn:Ek; try lia.
  - eexists _, _. apply binary_round_aux_exact; lia.
  - eexists _, _. apply binary_round_aux_exact; [|lia].
    rewrite digits2_pos_iter_xO. lia.
Qed.

(** A finite nonzero [double] divided by itself is [1.0]. *)
Lemma div_self (s : bool) (m : positive) (e : Z) :
  Double.div (S754_finite s m e) (S754_finite s m e) = Double.one.
Proof.
  unfold Double.div, Double.one, Double.prec, Double.emax.
  cbn [SFdiv]. unfold SFdiv_core_binary.
  replace (Zdigits2 (Z.pos m) + e - (Zdigits2 (Z.pos m) + e)) with 0 by lia.
  replace (e - e) with 0 by lia.
  change (Z.min (fexp 53 1024 0) 0) with (-53).
  change (0 - -53) with 53.
  cbv iota beta.
  rewrite Z.shiftl_mul_pow2 by lia.
  assert (E : Z.div_eucl (Z.pos m * 2 ^ 53) (Z.pos m) = (2 ^ 53, 0)).
  { pose proof (Z.div_mul (2 ^ 53) (Z.pos m) ltac:(lia)) as Hq.
    pose proof (Z.mod_mul (2 ^ 53) (Z.pos m) ltac:(lia)) as Hr.
    rewrite (Z.mul_comm (Z.pos m)).
    unfold Z.div, Z.modulo in Hq, Hr.
    destruct (Z.div_eucl (2 ^ 53 * Z.pos m) (Z.pos m)) as [q r].
    congruence. }
  rewrite E. cbv iota beta.
  assert (L : new_location (Z.pos m) 0 = loc_Exact).
  { unfold new_location. destruct (Z.even (Z.pos m)); reflexivity. }
  rewrite L. destruct s; reflexivity.
Qed.

End DoubleRatio.

Lemma and_bits_self (a : list byte) : and_bits a a = or_bits a a.
Proof.
  unfold and_bits, or_bits. induction a as [|x a IH]; [reflexivity|].
  cbn [count_bits]. now rewrite N.land_diag, N.lor_diag, IH.
Qed.

(** The ratio of the Jaccard kernels is [0.0] when both counts are the same
    number below [2^53]: either both are zero, or the quotient is [1.0]. *)
Lemma jaccard_ratio_equal_counts (n : N) : n < 2 ^ 53 -> jaccard_ratio n n = Double.zero.
Proof.
  intros Hn. unfold jaccard_ratio. destruct n as [|p]; [reflexivity|].
  cbn [N.eqb].
  destruct (of_uint_finite p) as (m & e & E).
  { change (2 ^ 53)%Z with (Z.of_N (2 ^ 53)). change (Z.pos p) with (Z.of_N (N.pos p)). lia. }
  rewrite E, div_self. reflexivity.
Qed.

(** The scalar Jaccard kernel returns [0.0] for a buffer against itself
    with the intersection seed [0], whatever the bytes are and whatever
    the two norms are. *)
Theorem jaccard_distance_default_self
  (bytes : N) (a : list byte) (normA normB : N)
  (Ha : N.of_nat (length a) = bytes) (Hbytes : bytes < 2 ^ 32) :
  jaccard_distance_default bytes a a 0 normA normB = Double.zero.
Proof.
  subst bytes.
  rewrite jaccard_default_counts by (reflexivity || apply N.ltb_lt; reflexivity).
  rewrite N.add_0_l, and_bits_self, or_bits_small by exact Hbytes.
  apply jaccard_ratio_equal_counts.
  pose proof (count_bits_bound N.lor orb eq_refl N.lor_spec a a) as Hb.
  unfold or_bits. change (2 ^ 32) with 4294967296 in Hbytes.
  change (2 ^ 53) with 9007199254740992. lia.
Qed.

Lemma jaccard_distance_default_self_witness :
  jaccard_distance_default 9 (repeat x5a 9) (repeat x5a 9) 0 7 11 = Double.zero.
Proof.
  exact (jaccard_distance_default_self 9 (repeat x5a 9) 7 11 eq_refl eq_refl).
Defined.

(** * The bit-vector dispatcher ([bitutils.cpp]: class [BitUtils]) *)

(** What a function member of [BitUtils] is bound to. *)
Inductive bit_binding : Type := bit_default | bit_avx512_popcount.

Record BitUtils := MkBitUtils {
  hamming_distance_func : bit_binding;
  jaccard_distance_func : bit_binding }.

Section BitBuild.
(** Whether the build defines [__AVX512F__]. *)
Variable AVX512F : bool.

Definition supports_avx512_popcount : bool := AVX512F.

(** [BitUtils::initialize]: the defaults, overridden when AVX-512 is
    there.  Nothing in the [try] block throws. *)
Definition BitUtils_initialize : BitUtils :=
  if supports_avx512_popcount
  then (if AVX512F then MkBitUtils bit_avx512_popcount bit_avx512_popcount
        else MkBitUtils bit_default bit_default)
  else MkBitUtils bit_default bit_default.

(** [BitUtils::get_instance] on the static [instance]: the new value of
    [instance] and the object referred to. *)
Definition get_instance (instance : option BitUtils) : option BitUtils * BitUtils :=
  match instance with
  | Some u => (instance, u)
  | None => let u := BitUtils_initialize in (Some u, u)
  end.

Definition BitUtils_hamming_distance (u : BitUtils)
  (bytes : N) (ax bx : list byte) (distance : N) : N :=
  match hamming_distance_func u with
  | bit_default => hamming_distance_default bytes ax bx distance
  | bit_avx512_popcount => hamming_distance_avx512_popcount bytes ax bx distance
  end.

Definition BitUtils_jaccard_distance (u : BitUtils)
  (bytes : N) (ax bx : list byte) (ab aa bb : N) : Double.double :=
  match jaccard_distance_func u with
  | bit_default => jaccard_distance_default bytes ax bx ab aa bb
  | bit_avx512_popcount => jaccard_distance_avx512_popcount bytes ax bx ab aa bb
  end.

(** The standalone functions: the new [instance] and the result. *)
Definition bit_hamming_distance (instance : option BitUtils)
  (bytes : N) (ax bx : list byte) (distance : N) : option BitUtils * N :=
  let (instance, u) := get_instance instance in
  (instance, BitUtils_hamming_distance u bytes ax bx distance).

Definition bit_jaccard_distance (instance : option BitUtils)
  (bytes : N) (ax bx : list byte) (ab aa bb : N) : option BitUtils * Double.double :=
  let (instance, u) := get_instance instance in
  (instance, BitUtils_jaccard_distance u bytes ax bx ab aa bb).

End BitBuild.

(** Whatever the build and whatever the state of the singleton, the
    standalone Hamming distance is the seed plus the number of differing
    bits (a [uint64_t] sum), and the singleton exists afterwards. *)
Theorem bit_hamming_distance_any_build
  (AVX512F : bool) (instance : option BitUtils)
  (bytes : N) (a b : list byte) (seed : N)
  (Ha : N.of_nat (length a) = bytes) (Hb : N.of_nat (length b) = bytes)
  (Hseed : seed < 2 ^ 64) :
  snd (bit_hamming_distance AVX512F instance bytes a b seed) = wrap64 (seed + xor_bits a b)
  /\ fst (bit_hamming_distance AVX512F instance bytes a b seed) <> None.
Proof.
  assert (Hla : length a = N.to_nat bytes) by lia.
  assert (Hlb : length b = N.to_nat bytes) by lia.
  pose proof (hamming_default_counts _ a b seed Hla Hlb Hseed) as E.
  rewrite N2Nat.id in E.
  assert (Eavx : hamming_distance_avx512_popcount bytes a b seed
                 = hamming_distance_default bytes a b seed).
  { destruct (blocks_and_remainder (length a)) as (q & r & Hr & Hn & _).
    rewrite <- Ha, Hn.
    apply hamming_avx512_agrees; [exact Hr | exact Hn | lia | exact Hseed]. }
  unfold bit_hamming_distance, get_instance, BitUtils_hamming_distance.
  destruct instance as [u|]; cbn [fst snd].
  - split; [|discriminate]. destruct (hamming_distance_func u); congruence.
  - split; [|discriminate].
    destruct (hamming_distance_func (BitUtils_initialize AVX512F)); congruence.
Qed.

Lemma bit_hamming_distance_any_build_witness :
  snd (bit_hamming_distance true None 65 (repeat xff 65) (repeat x0f 65) 3)
  = wrap64 (3 + xor_bits (repeat xff 65) (repeat x0f 65)).
Proof.
  exact (proj1 (bit_hamming_distance_any_build true None 65 (repeat xff 65)
                  (repeat x0f 65) 3 eq_refl eq_refl eq_refl)).
Defined.

(** The singleton is created once: a second [get_instance] finds the object
    the first one left and changes nothing; the object created is bound to
    the AVX-512 kernels exactly when the build has them. *)
Theorem get_instance_once (AVX512F : bool) (instance : option BitUtils) :
  get_instance AVX512F (fst (get_instance AVX512F instance))
  = get_instance AVX512F instance
  /\ fst (get_instance AVX512F instance) = Some (snd (get_instance AVX512F instance))
  /\ get_instance AVX512F None
     = (if AVX512F
        then (Some (MkBitUtils bit_avx512_popcount bit_avx512_popcount),
              MkBitUtils bit_avx512_popcount bit_avx512_popcount)
        else (Some (MkBitUtils bit_default bit_default),
              MkBitUtils bit_default bit_default)).
Proof.
  split; [|split].
  - destruct instance; reflexivity.
  - destruct instance; reflexivity.
  - destruct AVX512F; reflexivity.
Qed.

(** * Further properties of the half-precision codec *)

Local Open Scope Z_scope.

(** The value of the encoder on every pattern, for the lemmas below. *)
Lemma float_to_half_of_bits_value (bits : Z) (Hbits : 0 <= bits < 2 ^ 32) :
  float_to_half_of_bits bits = floatToHalf_spec bits.
Proof.
  destruct (float_fields bits Hbits) as (Es & Ee & Em).
  unfold float_to_half_of_bits, floatToHalf_spec.
  rewrite Es, Ee, Em. clear Es Ee Em.
  assert (Hs : 0 <= f32_sign bits <= 1).
  { unfold f32_sign. change (2 ^ 31) with 2147483648.
    change (2 ^ 32) with 4294967296 in Hbits. Z.div_mod_to_equations. lia. }
  assert (He : 0 <= f32_exponent bits < 256).
  { unfold f32_exponent. apply Z.mod_pos_bound. reflexivity. }
  assert (Hm : 0 <= f32_mantissa bits < 2 ^ 23).
  { unfold f32_mantissa. apply Z.mod_pos_bound. reflexivity. }
  generalize dependent (f32_sign bits). generalize dependent (f32_exponent bits).
  generalize dependent (f32_mantissa bits). clear bits Hbits.
  intros mantissa Hm exponent He s Hs. cbv zeta.
  change (2 ^ 23) with 8388608 in Hm.
  destruct (Z.eqb_spec exponent 255) as [E255|N255].
  { apply half_inf_pack; [exact Hs|]. destruct (mantissa =? 0); lia. }
  rewrite to_int32_wrap32 by (change (2 ^ 31) with 2147483648; lia).
  destruct (Z.leb_spec 31 (exponent - 127 + 15)) as [Hover|Hin].
  { now apply half_inf_pack0. }
  destruct (Z.leb_spec (exponent - 127 + 15) 0) as [Hunder|Hpos].
  { now apply half_zero_pack. }
  assert (Ht : 0 <= mantissa / 2 ^ 13 < 1024)
    by (change (2 ^ 13) with 8192; Z.div_mod_to_equations; lia).
  assert (Hd : 0 <= (mantissa / 2 ^ 12) mod 2 <= 1)
    by (Z.div_mod_to_equations; lia).
  rewrite Z.shiftr_div_pow2 by lia.
  rewrite (wrap16_small (mantissa / 2 ^ 13)) by (change (2 ^ 16) with 65536; lia).
  rewrite discarded_bit_test.
  destruct (Z.eqb_spec ((mantissa / 2 ^ 12) mod 2) 0) as [D0|D1].
  { rewrite D0, Z.add_0_r.
    destruct (Z.eqb_spec (mantissa / 2 ^ 13) (2 ^ 10)) as [C|C];
      [change (2 ^ 10) with 1024 in C; lia|].
    apply half_of_fields_pack; [exact Hs | lia | exact Ht]. }
  assert (D : (mantissa / 2 ^ 12) mod 2 = 1) by lia. rewrite D.
  rewrite (wrap16_small (mantissa / 2 ^ 13 + 1)) by (change (2 ^ 16) with 65536; lia).
  change 0x400 with (2 ^ 10).
  destruct (Z.eqb_spec (mantissa / 2 ^ 13 + 1) (2 ^ 10)) as [C|C].
  - rewrite to_int32_wrap32 by (change (2 ^ 31) with 2147483648; lia).
    destruct (Z.eqb_spec (exponent - 127 + 15 + 1) 31) as [O|O].
    + now apply half_inf_pack0.
    + apply half_of_fields_pack; [exact Hs | lia | change (2 ^ 10) with 1024; lia].
  - apply half_of_fields_pack; [exact Hs | lia | change (2 ^ 10) with 1024 in *; lia].
Qed.

Lemma half_pack_fields (s e m : Z) :
  0 <= s <= 1 -> 0 <= e < 32 -> 0 <= m < 1024 ->
  0 <= half_pack s e m < 2 ^ 16
  /\ half_pack s e m / 2 ^ 15 = s
  /\ half_exponent (half_pack s e m) = e
  /\ half_mantissa (half_pack s e m) = m.
Proof.
  intros Hs He Hm. unfold half_pack, half_exponent, half_mantissa.
  change (2 ^ 16) with 65536. change (2 ^ 15) with 32768.
  change (2 ^ 10) with 1024. change (2 ^ 5) with 32.
  repeat split; Z.div_mod_to_equations; lia.
Qed.

(** The packed sign, exponent field and fraction of what the encoder
    returns: the numbers [floatToHalf_spec] packs. *)
Lemma float_to_half_packs (bits : Z) :
  0 <= bits < 2 ^ 32 ->
  exists e m,
    float_to_half_of_bits bits = half_pack (f32_sign bits) e m
    /\ 0 <= f32_sign bits <= 1 /\ 0 <= e < 32 /\ 0 <= m < 1024
    /\ (e = 0 -> m = 0)
    /\ (f32_exponent bits = 255 -> e = 31 /\ (m = 0 <-> f32_mantissa bits = 0))
    /\ (f32_exponent bits <> 255 -> e = 31 -> m = 0).
Proof.
  intros Hbits. rewrite (float_to_half_of_bits_value bits Hbits).
  unfold floatToHalf_spec.
  assert (Hs : 0 <= f32_sign bits <= 1).
  { unfold f32_sign. change (2 ^ 31) with 2147483648.
    change (2 ^ 32) with 4294967296 in Hbits. Z.div_mod_to_equations. lia. }
  assert (He : 0 <= f32_exponent bits < 256).
  { unfold f32_exponent. apply Z.mod_pos_bound. reflexivity. }
  assert (Hm : 0 <= f32_mantissa bits < 8388608).
  { unfold f32_mantissa. apply Z.mod_pos_bound. reflexivity. }
  generalize dependent (f32_sign bits). generalize dependent (f32_exponent bits).
  generalize dependent (f32_mantissa bits). clear bits Hbits.
  intros mantissa Hm exponent He s Hs. cbv zeta.
  assert (Ht : 0 <= mantissa / 2 ^ 13 < 1024)
    by (change (2 ^ 13) with 8192; Z.div_mod_to_equations; lia).
  assert (Hd : 0 <= (mantissa / 2 ^ 12) mod 2 <= 1)
    by (Z.div_mod_to_equations; lia).
  change (2 ^ 10) with 1024.
  destruct (Z.eqb_spec exponent 255) as [E255|N255].
  { destruct (Z.eqb_spec mantissa 0); eexists _, _; (split; [reflexivity|]);
      repeat split; lia. }
  destruct (Z.leb_spec 31 (exponent - 127 + 15)).
  { eexists _, _; (split; [reflexivity|]); repeat split; lia. }
  destruct (Z.leb_spec (exponent - 127 + 15) 0).
  { eexists _, _; (split; [reflexivity|]); repeat split; lia. }
  destruct (Z.eqb_spec (mantissa / 2 ^ 13 + (mantissa / 2 ^ 12) mod 2) 1024).
  { destruct (Z.eqb_spec (exponent - 127 + 15 + 1) 31);
      eexists _, _; (split; [reflexivity|]); repeat split; lia. }
  eexists _, _; (split; [reflexivity|]); repeat split; lia.
Qed.

(** Whatever 32-bit pattern goes in, the encoder returns a 16-bit value
    with the sign of the input that is never a subnormal half; a NaN goes
    to a NaN, an infinity to the infinity of its sign, and a finite input
    never to a NaN. *)
Theorem float_to_half_output (bits : Z) (Hbits : 0 <= bits < 2 ^ 32) :
  let h := float_to_half_of_bits bits in
  0 <= h < 2 ^ 16
  /\ h / 2 ^ 15 = f32_sign bits
  /\ half_subnormal h = false
  /\ half_nan h = (f32_exponent bits =? 255) && negb (f32_mantissa bits =? 0)
  /\ ((f32_exponent bits =? 255) && (f32_mantissa bits =? 0) = true ->
      h = half_pack (f32_sign bits) 31 0).
Proof.
  destruct (float_to_half_packs bits Hbits) as (e & m & E & Hs & He & Hm & H0 & H255 & Hfin).
  cbv zeta. rewrite E.
  destruct (half_pack_fields _ e m Hs He Hm) as (Hr & Hsign & Hexp & Hman).
  unfold half_subnormal, half_nan. rewrite Hexp, Hman.
  split; [exact Hr|]. split; [exact Hsign|]. split; [|split].
  - destruct (Z.eqb_spec e 0) as [Ez|]; [|reflexivity].
    rewrite (H0 Ez). reflexivity.
  - destruct (Z.eqb_spec (f32_exponent bits) 255) as [E255|N255].
    + destruct (H255 E255) as (-> & Hiff). cbn [andb].
      destruct (Z.eqb_spec m 0), (Z.eqb_spec (f32_mantissa bits) 0); try reflexivity;
        exfalso; tauto.
    + cbn [andb]. destruct (Z.eqb_spec e 31) as [E31|]; [|reflexivity].
      rewrite (Hfin N255 E31). reflexivity.
  - intros H. apply andb_prop in H. destruct H as [H1 H2].
    apply Z.eqb_eq in H1, H2. destruct (H255 H1) as (-> & Hiff).
    now rewrite (proj2 Hiff H2).
Qed.

Lemma float_to_half_output_witness :
  half_nan (float_to_half_of_bits 0xffc00000) = true.
Proof.
  refine (proj1 (proj2 (proj2 (proj2 (float_to_half_output 0xffc00000 _))))).
  split; [discriminate | reflexivity].
Defined.

(** ** The decoder against the IEEE 754 value *)

(** Equality of two values of [spec_float], as a test. *)
Definition sf_eqb (x y : spec_float) : bool :=
  match x, y with
  | S754_zero s, S754_zero t => Bool.eqb s t
  | S754_infinity s, S754_infinity t => Bool.eqb s t
  | S754_nan, S754_nan => true
  | S754_finite s m e, S754_finite t n f => Bool.eqb s t && Pos.eqb m n && Z.eqb e f
  | _, _ => false
  end.

Lemma sf_eqb_eq (x y : spec_float) : sf_eqb x y = true <-> x = y.
Proof.
  split.
  - destruct x as [s|s| |s m e], y as [t|t| |t n f]; cbn; try discriminate;
      try reflexivity.
    + intros H. apply Bool.eqb_prop in H. now subst.
    + intros H. apply Bool.eqb_prop in H. now subst.
    + intros H. apply andb_prop in H. destruct H as [H He].
      apply andb_prop in H. destruct H as [Hs Hm].
      apply Bool.eqb_prop in Hs. apply Pos.eqb_eq in Hm. apply Z.eqb_eq in He.
      now subst.
  - intros <-. destruct x as [s|s| |s m e]; cbn; rewrite ?Bool.eqb_reflx; try reflexivity.
    now rewrite Pos.eqb_refl, Z.eqb_refl.
Qed.

(** Infinities and NaNs: the halves with exponent field 31. *)
Definition half_special (h : Z) : bool := half_exponent h =? 31.

(** The binary32 pattern with the value of a normal half: the sign, the
    exponent rebiased from 15 to 127, the fraction in the top 10 of 23
    bits. *)
Definition half_widen (h : Z) : Z :=
  (h / 2 ^ 15) * 2 ^ 31 + (half_exponent h + 112) * 2 ^ 23 + half_mantissa h * 2 ^ 13.

Definition decoder_check (h : Z) : bool :=
  let x := half_to_float_manual h in
  let y := cvtph_lane h in
  (if half_subnormal h
   then negb (sf_eqb x y) && sf_eqb x (SFldexp Float32.prec Float32.emax y 14)
   else sf_eqb x y)
  && (half_special h || sf_eqb (Float32.sub x x) Float32.zero)
  && ((half_exponent h =? 0) || half_special h || (Float32.bits x =? half_widen h)).

Lemma decoder_all_halves : range_all 16 0 decoder_check = true.
Proof. vm_cast_no_check (@eq_refl bool true). Qed.

Lemma decoder_checked (h : Z) : 0 <= h < 2 ^ 16 -> decoder_check h = true.
Proof. exact (range_all_spec 16 0 decoder_check decoder_all_halves h). Qed.

(** The manual decoder returns the IEEE 754 value of every half that is not
    a subnormal (the value the F16C conversion gives); of a subnormal it
    returns [2 ^ 14] times the IEEE value, never the IEEE value itself. *)
Theorem half_to_float_manual_vs_ieee (h : Z) (Hh : 0 <= h < 2 ^ 16) :
  (half_subnormal h = false -> half_to_float_manual h = cvtph_lane h)
  /\ (half_subnormal h = true ->
      half_to_float_manual h = SFldexp Float32.prec Float32.emax (cvtph_lane h) 14
      /\ half_to_float_manual h <> cvtph_lane h).
Proof.
  pose proof (decoder_checked h Hh) as Hc. unfold decoder_check in Hc. cbv zeta in Hc.
  apply andb_prop in Hc. destruct Hc as [Hc _].
  apply andb_prop in Hc. destruct Hc as [Hc _].
  split; intros Hsub; rewrite Hsub in Hc.
  - now apply sf_eqb_eq.
  - apply andb_prop in Hc. destruct Hc as [Hne Heq]. split.
    + now apply sf_eqb_eq.
    + intros E. apply sf_eqb_eq in E. rewrite E in Hne. discriminate.
Qed.

Lemma half_to_float_manual_vs_ieee_witness :
  half_to_float_manual 0x03ff <> cvtph_lane 0x03ff.
Proof.
  refine (proj2 (proj2 (half_to_float_manual_vs_ieee 0x03ff _) eq_refl)).
  split; [discriminate | reflexivity].
Defined.

(** The float decoded from a normal half has the half's sign, its exponent
    rebiased to 127 and its fraction in the top bits: the widening is
    exact. *)
Lemma half_to_float_normal_bits (h : Z) :
  0 <= h < 2 ^ 16 -> half_exponent h <> 0 -> half_exponent h <> 31 ->
  Float32.bits (half_to_float h) = half_widen h.
Proof.
  intros Hh H0 H31.
  pose proof (decoder_checked h Hh) as Hc. unfold decoder_check in Hc. cbv zeta in Hc.
  apply andb_prop in Hc. destruct Hc as [_ Hc]. unfold half_special in Hc.
  destruct (Z.eqb_spec (half_exponent h) 0); [contradiction|].
  destruct (Z.eqb_spec (half_exponent h) 31); [contradiction|].
  cbn [orb] in Hc. now apply Z.eqb_eq.
Qed.

(** A float that is exactly a normal half (exponent field 113 to 142, the
    low 13 fraction bits zero) comes back from [floatToHalf] then
    [halfToFloat] with the identical bit pattern. *)
Theorem float_round_trip_on_normal_halves (bits : Z)
  (Hbits : 0 <= bits < 2 ^ 32)
  (Hexp : 113 <= f32_exponent bits <= 142)
  (Hman : f32_mantissa bits mod 2 ^ 13 = 0) :
  Float32.bits (half_to_float (float_to_half_of_bits bits)) = bits.
Proof.
  assert (E : float_to_half_of_bits bits
              = half_pack (f32_sign bits) (f32_exponent bits - 112)
                          (f32_mantissa bits / 2 ^ 13)).
  { rewrite (float_to_half_of_bits_value bits Hbits). unfold floatToHalf_spec. cbv zeta.
    destruct (Z.eqb_spec (f32_exponent bits) 255); [lia|].
    destruct (Z.leb_spec 31 (f32_exponent bits - 127 + 15)); [lia|].
    destruct (Z.leb_spec (f32_exponent bits - 127 + 15) 0); [lia|].
    assert (Hm : 0 <= f32_mantissa bits < 8388608)
      by (unfold f32_mantissa; apply Z.mod_pos_bound; reflexivity).
    assert (Hd : (f32_mantissa bits / 2 ^ 12) mod 2 = 0).
    { change (2 ^ 13) with 8192 in Hman. change (2 ^ 12) with 4096.
      revert Hman Hm. generalize (f32_mantissa bits). intros m Hman Hm.
      Z.div_mod_to_equations. lia. }
    rewrite Hd, Z.add_0_r.
    destruct (Z.eqb_spec (f32_mantissa bits / 2 ^ 13) (2 ^ 10)) as [C|C].
    - exfalso. change (2 ^ 13) with 8192 in C. change (2 ^ 10) with 1024 in C.
      revert C Hm. generalize (f32_mantissa bits). intros m C Hm.
      Z.div_mod_to_equations. lia.
    - f_equal. lia. }
  assert (Hs : 0 <= f32_sign bits <= 1).
  { unfold f32_sign. change (2 ^ 31) with 2147483648.
    change (2 ^ 32) with 4294967296 in Hbits. Z.div_mod_to_equations. lia. }
  assert (Hm : 0 <= f32_mantissa bits / 2 ^ 13 < 1024).
  { assert (0 <= f32_mantissa bits < 8388608)
      by (unfold f32_mantissa; apply Z.mod_pos_bound; reflexivity).
    change (2 ^ 13) with 8192. Z.div_mod_to_equations. lia. }
  destruct (half_pack_fields (f32_sign bits) (f32_exponent bits - 112)
              (f32_mantissa bits / 2 ^ 13) Hs ltac:(lia) Hm)
    as (Hr & Hsign & Hexp' & Hman').
  rewrite E, half_to_float_normal_bits by (rewrite ?Hexp'; lia).
  unfold half_widen. rewrite Hsign, Hexp', Hman'.
  unfold f32_sign, f32_exponent, f32_mantissa in *.
  change (2 ^ 31) with 2147483648. change (2 ^ 23) with 8388608 in *.
  change (2 ^ 13) with 8192 in *. change (2 ^ 8) with 256 in *.
  change (2 ^ 32) with 4294967296 in *.
  clear E Hr Hsign Hexp' Hman' Hs Hm Hexp.
  Z.div_mod_to_equations. lia.
Qed.

Lemma float_round_trip_on_normal_halves_witness :
  Float32.bits (half_to_float (float_to_half_of_bits 0x40490000)) = 0x40490000.
Proof.
  apply (float_round_trip_on_normal_halves 0x40490000).
  - split; [discriminate | reflexivity].
  - split; discriminate.
  - reflexivity.
Defined.

(** * Further properties of the half-vector kernels *)

(** ** Symmetry of the arithmetic *)

Lemma SFmul_comm (prec emax : Z) (x y : spec_float) :
  SFmul prec emax x y = SFmul prec emax y x.
Proof.
  destruct x as [s|s| |s m e], y as [t|t| |t n f]; cbn [SFmul];
    try reflexivity; try (now destruct s, t).
  now rewrite (Pos.mul_comm m n), (Z.add_comm e f), (xorb_comm s t).
Qed.

Lemma SFmul_opp_opp (prec emax : Z) (d : spec_float) :
  SFmul prec emax (SFopp d) (SFopp d) = SFmul prec emax d d.
Proof.
  destruct d as [s|s| |s m e]; cbn [SFmul SFopp]; try reflexivity;
    now destruct s.
Qed.

Lemma SFabs_opp (d : spec_float) : SFabs (SFopp d) = SFabs d.
Proof. destruct d; reflexivity. Qed.

Lemma binary_round_aux_opp (prec emax : Z) (s : bool) (m e : Z) (l : location) :
  binary_round_aux prec emax (negb s) m e l
  = SFopp (binary_round_aux prec emax s m e l).
Proof.
  unfold binary_round_aux.
  destruct (shr_fexp prec emax m e l) as [mrs' e'].
  destruct (shr_fexp prec emax _ e' loc_Exact) as [mrs'' e''].
  destruct (shr_m mrs''); try reflexivity.
  destruct (Z.leb e'' (emax - prec)); reflexivity.
Qed.

Lemma binary_normalize_opp (prec emax : Z) (z e : Z) :
  z <> 0 ->
  binary_normalize prec emax (- z) e false
  = SFopp (binary_normalize prec emax z e false).
Proof.
  intros Hz. destruct z as [|p|p]; [contradiction| |]; cbn [Z.opp binary_normalize];
    unfold binary_round;
    destruct (shl_align p e (fexp prec emax (Z.pos (digits2_pos p) + e))) as [mz ez].
  - apply (binary_round_aux_opp prec emax false).
  - change true with (negb false). rewrite binary_round_aux_opp.
    destruct (binary_round_aux prec emax false (Z.pos mz) ez loc_Exact) as [s|s| |s m f];
      cbn [SFopp]; rewrite ?Bool.negb_involutive; reflexivity.
Qed.

(** Swapping the operands of a subtraction negates the difference, or
    leaves it as it is (a zero or a NaN). *)
Lemma SFsub_swap (prec emax : Z) (x y : spec_float) :
  SFsub prec emax y x = SFopp (SFsub prec emax x y)
  \/ SFsub prec emax y x = SFsub prec emax x y.
Proof.
  destruct x as [s|s| |s m e], y as [t|t| |t n f]; cbn [SFsub SFopp];
    try (now right); try (now left);
    try (destruct s, t; cbn; (now left) || (now right)).
  rewrite (Z.min_comm f e).
  set (a := cond_Zopp s (Z.pos (fst (shl_align m e (Z.min e f))))).
  set (b := cond_Zopp t (Z.pos (fst (shl_align n f (Z.min e f))))).
  destruct (Z.eq_dec (a - b) 0) as [E|E].
  - right. replace (b - a) with 0 by lia. now rewrite E.
  - left. replace (b - a) with (- (a - b)) by lia.
    now apply binary_normalize_opp.
Qed.

Lemma square_of_difference_swap (x y : Float32.float) :
  Float32.mul (Float32.sub y x) (Float32.sub y x)
  = Float32.mul (Float32.sub x y) (Float32.sub x y).
Proof.
  unfold Float32.mul, Float32.sub.
  destruct (SFsub_swap Float32.prec Float32.emax x y) as [E|E]; rewrite E;
    [apply SFmul_opp_opp | reflexivity].
Qed.

Lemma abs_of_difference_swap (x y : Float32.float) :
  Float32.abs (Float32.sub y x) = Float32.abs (Float32.sub x y).
Proof.
  unfold Float32.abs, Float32.sub.
  destruct (SFsub_swap Float32.prec Float32.emax x y) as [E|E]; rewrite E;
    [apply SFabs_opp | reflexivity].
Qed.

Definition swap_sums (c : cosine_sums) : cosine_sums :=
  CosineSums (dot_product c) (norm_b c) (norm_a c).

Lemma cosine_fold_swap (a b : list Z) (l : list nat) :
  forall c,
  fold_left (cosine_element b a) l (swap_sums c)
  = swap_sums (fold_left (cosine_element a b) l c).
Proof.
  induction l as [|i l IH]; intros c; [reflexivity|].
  cbn [fold_left]. rewrite <- IH. f_equal.
  unfold cosine_element, swap_sums. cbn [dot_product norm_a norm_b].
  unfold Float32.mul. now rewrite (SFmul_comm _ _ (half_to_float (at_index b i))).
Qed.

Lemma cosine_result_swap (c : cosine_sums) :
  cosine_result (swap_sums c) = cosine_result c.
Proof.
  unfold cosine_result, swap_sums. cbn [dot_product norm_a norm_b].
  rewrite orb_comm. unfold Float32.mul.
  now rewrite (SFmul_comm _ _ (Float32.sqrt (norm_b c))).
Qed.

(** Each scalar kernel gives the same outcome, bit for bit, with its two
    operands exchanged. *)
Theorem half_kernels_symmetric (dim : Z) (ax bx : half_ptr) :
  l2_squared_distance_default dim ax bx = l2_squared_distance_default dim bx ax
  /\ inner_product_default dim ax bx = inner_product_default dim bx ax
  /\ cosine_similarity_default dim ax bx = cosine_similarity_default dim bx ax
  /\ l1_distance_default dim ax bx = l1_distance_default dim bx ax.
Proof.
  unfold l2_squared_distance_default, inner_product_default, cosine_similarity_default,
    l1_distance_default, bind, with_arrays.
  destruct (validate_dimensions dim) as [[]|e]; [|repeat split; reflexivity].
  destruct ax as [a|], bx as [b|]; try (repeat split; reflexivity).
  repeat split.
  - f_equal. apply fold_left_ext_in. intros acc i _. cbv zeta.
    now rewrite square_of_difference_swap.
  - f_equal. apply fold_left_ext_in. intros acc i _. cbv zeta.
    unfold Float32.mul. now rewrite SFmul_comm.
  - change (CosineSums Float32.zero Float32.zero Float32.zero)
      with (swap_sums (CosineSums Float32.zero Float32.zero Float32.zero)) at 2.
    now rewrite cosine_fold_swap, cosine_result_swap.
  - f_equal. apply fold_left_ext_in. intros acc i _. cbv zeta.
    now rewrite abs_of_difference_swap.
Qed.

(** ** Self distance *)

(** A half vector whose elements are 16-bit values other than infinities
    and NaNs. *)
Definition finite_half_vector (a : list Z) : Prop :=
  Forall (fun h => 0 <= h < 2 ^ 16 /\ half_special h = false) a.

Lemma finite_half_difference (h : Z) :
  0 <= h < 2 ^ 16 -> half_special h = false ->
  Float32.sub (half_to_float h) (half_to_float h) = Float32.zero.
Proof.
  intros Hh Hf.
  pose proof (decoder_checked h Hh) as Hc. unfold decoder_check in Hc. cbv zeta in Hc.
  apply andb_prop in Hc. destruct Hc as [Hc _].
  apply andb_prop in Hc. destruct Hc as [_ Hc].
  rewrite Hf in Hc. cbn [orb] in Hc. now apply sf_eqb_eq.
Qed.

Lemma at_index_in (a : list Z) (i : nat) (P : Z -> Prop) :
  Forall P a -> (i < length a)%nat -> P (at_index a i).
Proof.
  intros Ha Hi. rewrite Forall_forall in Ha. apply Ha. unfold at_index. now apply nth_In.
Qed.

Lemma fold_left_fixed {A B : Type} (f : A -> B -> A) (l : list B) (a : A) :
  (forall i, In i l -> f a i = a) -> fold_left f l a = a.
Proof.
  induction l as [|i l IH]; intros H; [reflexivity|].
  cbn [fold_left]. rewrite (H i (or_introl eq_refl)). apply IH.
  intros j Hj. apply H. now right.
Qed.

(** The squared L2 distance and the L1 distance of a half vector without
    infinities and NaNs to itself are exactly [+0.0]. *)
Theorem half_self_distance_zero (dim : Z) (a : list Z)
  (Hdim : 0 < dim <= 16000) (Ha : Z.of_nat (length a) = dim)
  (Hfin : finite_half_vector a) :
  l2_squared_distance_default dim (Some a) (Some a) = Return Float32.zero
  /\ l1_distance_default dim (Some a) (Some a) = Return Float32.zero.
Proof.
  unfold l2_squared_distance_default, l1_distance_default, validate_dimensions,
    max_dimensions, HALFVEC_MAX_DIM, bind, with_arrays, indices.
  destruct (Z.leb_spec dim 0); [lia|]. destruct (Z.ltb_spec 16000 dim); [lia|].
  assert (Hd : forall i, In i (seq 0 (Z.to_nat dim)) ->
               Float32.sub (half_to_float (at_index a i)) (half_to_float (at_index a i))
               = Float32.zero).
  { intros i Hi. apply in_seq in Hi.
    destruct (at_index_in a i _ Hfin ltac:(lia)) as [Hr Hs].
    now apply finite_half_difference. }
  split; f_equal; apply fold_left_fixed; intros i Hi; cbv zeta; rewrite (Hd i Hi);
    reflexivity.
Qed.

Lemma half_self_distance_zero_witness :
  l2_squared_distance_default 3 (Some [0x3c00; 0xc000; 0x0001])
    (Some [0x3c00; 0xc000; 0x0001]) = Return Float32.zero.
Proof.
  refine (proj1 (half_self_distance_zero 3 [0x3c00; 0xc000; 0x0001] _ eq_refl _)).
  - split; [reflexivity | discriminate].
  - repeat (apply Forall_cons; [split; [split; [discriminate | reflexivity] | reflexivity]|]).
    apply Forall_nil.
Defined.

(** ** When the kernels throw *)

Definition throws {A : Type} (o : outcome A) : Prop := exists e, o = Throw e.

Definition invalid_arguments (dim : Z) (ax bx : half_ptr) : Prop :=
  dim <= 0 \/ 16000 < dim \/ ax = None \/ bx = None.

(** The L2, inner product and L1 kernels throw exactly on a dimension
    outside 1..16000 or a null operand: on valid arguments they return a
    value whatever the operands hold (NaNs and infinities included).  The
    cosine kernel throws on these arguments too, and may throw on others. *)
Theorem half_kernels_throw_iff_invalid (dim : Z) (ax bx : half_ptr) :
  (throws (l2_squared_distance_default dim ax bx) <-> invalid_arguments dim ax bx)
  /\ (throws (inner_product_default dim ax bx) <-> invalid_arguments dim ax bx)
  /\ (throws (l1_distance_default dim ax bx) <-> invalid_arguments dim ax bx)
  /\ (invalid_arguments dim ax bx -> throws (cosine_similarity_default dim ax bx)).
Proof.
  assert (Hbad : invalid_arguments dim ax bx ->
                 throws (l2_squared_distance_default dim ax bx)
                 /\ throws (inner_product_default dim ax bx)
                 /\ throws (l1_distance_default dim ax bx)
                 /\ throws (cosine_similarity_default dim ax bx)).
  { intros H. unfold throws, l2_squared_distance_default, inner_product_default,
      l1_distance_default, cosine_similarity_default, validate_dimensions,
      max_dimensions, HALFVEC_MAX_DIM, bind, with_arrays.
    destruct (Z.leb_spec dim 0); [repeat split; eexists; reflexivity|].
    destruct (Z.ltb_spec 16000 dim); [repeat split; eexists; reflexivity|].
    destruct H as [H|[H|[H|H]]]; [lia | lia | subst ax | subst bx; destruct ax];
      repeat split; eexists; reflexivity. }
  assert (Hgood : ~ invalid_arguments dim ax bx ->
                  ~ throws (l2_squared_distance_default dim ax bx)
                  /\ ~ throws (inner_product_default dim ax bx)
                  /\ ~ throws (l1_distance_default dim ax bx)).
  { intros H. unfold invalid_arguments in H.
    destruct ax as [a|]; [|tauto]. destruct bx as [b|]; [|tauto].
    unfold l2_squared_distance_default, inner_product_default, l1_distance_default,
      validate_dimensions, max_dimensions, HALFVEC_MAX_DIM, bind, with_arrays.
    destruct (Z.leb_spec dim 0); [tauto|]. destruct (Z.ltb_spec 16000 dim); [tauto|].
    repeat split; intros [e He]; discriminate. }
  assert (Hdec : invalid_arguments dim ax bx \/ ~ invalid_arguments dim ax bx).
  { unfold invalid_arguments.
    destruct (Z.leb_spec dim 0); [tauto|]. destruct (Z.ltb_spec 16000 dim); [tauto|].
    destruct ax; [|tauto]. destruct bx; [|tauto].
    right. intros [?|[?|[?|?]]]; (lia || discriminate). }
  destruct Hdec as [H|H].
  - destruct (Hbad H) as (T1 & T2 & T3 & T4). tauto.
  - destruct (Hgood H) as (T1 & T2 & T3). tauto.
Qed.

(** ** Below the block width *)

(** For a dimension below 8 the F16C kernels run no block and are the
    scalar kernels, bit for bit, on every pair of operands. *)
Theorem f16c_kernels_below_block_width (dim : Z) (ax bx : half_ptr)
  (Hdim : dim < 8) :
  l2_squared_distance_f16c dim ax bx = l2_squared_distance_default dim ax bx
  /\ inner_product_f16c dim ax bx = inner_product_default dim ax bx
  /\ cosine_similarity_f16c dim ax bx = cosine_similarity_default dim ax bx
  /\ l1_distance_f16c dim ax bx = l1_distance_default dim ax bx.
Proof.
  assert (Hq : (Z.to_nat dim / 8 = 0)%nat) by (apply Nat.div_small; lia).
  assert (Hb : block_indices dim = []) by (unfold block_indices; now rewrite Hq).
  assert (Hr : remainder_indices dim = indices dim).
  { unfold remainder_indices, indices. rewrite Hq.
    rewrite Nat.mod_small by lia. reflexivity. }
  unfold l2_squared_distance_f16c, inner_product_f16c, cosine_similarity_f16c,
    l1_distance_f16c, l2_squared_distance_default, inner_product_default,
    cosine_similarity_default, l1_distance_default.
  rewrite Hb, Hr. repeat split; reflexivity.
Qed.

Lemma f16c_kernels_below_block_width_witness :
  inner_product_f16c 3 (Some [0x3c00; 0x4000; 0x4200]) (Some [0x3c00; 0x4000; 0x4200])
  = inner_product_default 3 (Some [0x3c00; 0x4000; 0x4200])
      (Some [0x3c00; 0x4000; 0x4200]).
Proof.
  exact (proj1 (proj2 (f16c_kernels_below_block_width 3
    (Some [0x3c00; 0x4000; 0x4200]) (Some [0x3c00; 0x4000; 0x4200]) eq_refl))).
Defined.

(** ** What [initialize] binds *)

(** On a calculator that is not initialized, [initialize] binds all four
    operations at once, to the F16C kernels exactly when the build has
    [F16C_SUPPORT] and CPUID reports F16C, and from then on each public
    entry point is the kernel bound: no entry point throws
    [HalfutilsError] or calls an empty function. *)
Theorem initialize_binds_kernels
  (F16C_SUPPORT cpuid_f16c : bool) (c : calculator) (dim : Z) (ax bx : half_ptr)
  (Hc : initialized_ c = false) :
  let c' := initialize F16C_SUPPORT cpuid_f16c c in
  has_f16c_support_ c' = F16C_SUPPORT && cpuid_f16c
  /\ l2_squared_distance c' dim ax bx
     = (if F16C_SUPPORT && cpuid_f16c then l2_squared_distance_f16c dim ax bx
        else l2_squared_distance_default dim ax bx)
  /\ inner_product c' dim ax bx
     = (if F16C_SUPPORT && cpuid_f16c then inner_product_f16c dim ax bx
        else inner_product_default dim ax bx)
  /\ cosine_similarity c' dim ax bx
     = (if F16C_SUPPORT && cpuid_f16c then cosine_similarity_f16c dim ax bx
        else cosine_similarity_default dim ax bx)
  /\ l1_distance c' dim ax bx
     = (if F16C_SUPPORT && cpuid_f16c then l1_distance_f16c dim ax bx
        else l1_distance_default dim ax bx).
Proof.
  cbv zeta. unfold initialize. rewrite Hc.
  destruct F16C_SUPPORT, cpuid_f16c; cbn; repeat split; reflexivity.
Qed.

Lemma initialize_binds_kernels_witness :
  l1_distance (initialize true true static_init) 3 (Some [0x3c00; 0x4000; 0x4200])
    (Some [0x4200; 0x4000; 0x3c00])
  = l1_distance_f16c 3 (Some [0x3c00; 0x4000; 0x4200]) (Some [0x4200; 0x4000; 0x3c00]).
Proof.
  exact (proj2 (proj2 (proj2 (proj2
    (initialize_binds_kernels true true static_init 3
       (Some [0x3c00; 0x4000; 0x4200]) (Some [0x4200; 0x4000; 0x3c00]) eq_refl))))).
Defined.

(** * Comparison of half vectors ([halfvec.cpp]: [compare_halfvecs]) *)

Lemma SFcompare_swap (x y : spec_float) :
  SFcompare y x = option_map CompOpp (SFcompare x y).
Proof.
  destruct x as [s|s| |s m e], y as [t|t| |t n f]; cbn [SFcompare option_map];
    try reflexivity; try (now destruct s); try (now destruct t);
    try (now destruct s, t).
  destruct s, t; cbn [CompOpp]; try reflexivity;
    rewrite (Z.compare_antisym e f); destruct (e ?= f); cbn [CompOpp]; try reflexivity;
    pose proof (Pos.compare_cont_antisym m n Eq) as H; cbn [CompOpp] in H;
    rewrite <- H; destruct (Pos.compare_cont Eq m n); reflexivity.
Qed.

Lemma SFltb_asym (x y : spec_float) : SFltb x y = true -> SFltb y x = false.
Proof.
  unfold SFltb. rewrite (SFcompare_swap x y).
  destruct (SFcompare x y) as [[ | | ]|]; cbn; congruence.
Qed.

Lemma SFltb_irrefl (x : spec_float) : SFltb x x = false.
Proof.
  destruct (SFltb x x) eqn:E; [|reflexivity].
  pose proof (SFltb_asym x x E). congruence.
Qed.

Lemma SFeqb_sym (x y : spec_float) : SFeqb y x = SFeqb x y.
Proof.
  unfold SFeqb. rewrite (SFcompare_swap x y).
  destruct (SFcompare x y) as [[ | | ]|]; reflexivity.
Qed.

Lemma SFeqb_self (x : spec_float) : SFeqb x x = negb (sf_eqb x S754_nan).
Proof.
  unfold SFeqb.
  destruct x as [s|s| |s m e]; cbn [SFcompare sf_eqb negb]; try reflexivity.
  - now destruct s.
  - destruct s; rewrite Z.compare_refl, Pos.compare_cont_refl; reflexivity.
Qed.

Module HalfVec.

(** [halfvec::HalfVector<>]: the header fields and the elements of the
    flexible array [x]. *)
Record HalfVector := MkHalfVector {
  vl_len_ : Z; dim : Z; unused : Z; x : list Z }.

(** The exceptions of [halfvec.cpp], by class and constructor argument. *)
Inductive halfvec_exn : Type :=
| InvalidInput (msg : String.string)
| DimensionMismatch (msg : String.string).

(** The loop of [compare_halfvecs], which returns at the first index whose
    two values are ordered. *)
Fixpoint compare_elements (ax bx : list Z) (idx : list nat) : Z :=
  match idx with
  | [] => 0
  | i :: rest =>
      let val_a := half_to_float (at_index ax i) in
      let val_b := half_to_float (at_index bx i) in
      if SFltb val_a val_b then -1
      else if SFltb val_b val_a then 1
      else compare_elements ax bx rest
  end.

Definition compare_halfvecs (a b : option HalfVector) : halfvec_exn + Z :=
  match a, b with
  | Some a, Some b =>
      if negb (dim a =? dim b)
      then inl (DimensionMismatch "cannot compare half vectors of different dimensions")
      else inr (compare_elements (x a) (x b) (indices (dim a)))
  | _, _ => inl (InvalidInput "null half vector in comparison")
  end.

Lemma compare_elements_swap (ax bx : list Z) (idx : list nat) :
  compare_elements bx ax idx = - compare_elements ax bx idx.
Proof.
  induction idx as [|i rest IH]; [reflexivity|]. cbn [compare_elements].
  destruct (SFltb (half_to_float (at_index ax i)) (half_to_float (at_index bx i))) eqn:Eab.
  - now rewrite (SFltb_asym _ _ Eab).
  - destruct (SFltb (half_to_float (at_index bx i)) (half_to_float (at_index ax i)));
      [reflexivity | exact IH].
Qed.

Lemma compare_elements_range (ax bx : list Z) (idx : list nat) :
  compare_elements ax bx idx = -1 \/ compare_elements ax bx idx = 0
  \/ compare_elements ax bx idx = 1.
Proof.
  induction idx as [|i rest IH]; cbn [compare_elements]; [tauto|].
  destruct (SFltb _ _); [tauto|]. destruct (SFltb _ _); tauto.
Qed.

(** Exchanging the operands of [compare_halfvecs] negates the result and
    keeps the exception; the result is -1, 0 or 1; and a half vector
    compares equal to itself, whatever it holds. *)
Theorem compare_halfvecs_antisymmetric (a b : option HalfVector) :
  compare_halfvecs b a
  = match compare_halfvecs a b with
    | inl e => inl e
    | inr r => inr (- r)
    end
  /\ match compare_halfvecs a b with
     | inl _ => True
     | inr r => r = -1 \/ r = 0 \/ r = 1
     end
  /\ (forall v : HalfVector, compare_halfvecs (Some v) (Some v) = inr 0).
Proof.
  split; [|split].
  - destruct a as [a|], b as [b|]; try reflexivity.
    unfold compare_halfvecs. rewrite (Z.eqb_sym (dim b) (dim a)).
    destruct (Z.eqb_spec (dim a) (dim b)) as [E|E]; cbn [negb]; [|reflexivity].
    now rewrite compare_elements_swap, E.
  - destruct a as [a|], b as [b|]; try exact I.
    unfold compare_halfvecs. destruct (negb _); [exact I|].
    apply compare_elements_range.
  - intros v. unfold compare_halfvecs. rewrite Z.eqb_refl. cbn [negb]. f_equal.
    induction (indices (dim v)) as [|i rest IH]; [reflexivity|].
    cbn [compare_elements]. now rewrite SFltb_irrefl.
Qed.

(** An unordered pair of values counts as equal: a half vector all of
    whose elements decode to NaN compares equal to every half vector of its
    dimension. *)
Theorem compare_halfvecs_nan_equal (a b : HalfVector)
  (Hdim : dim a = dim b)
  (Hnan : forall i, In i (indices (dim a)) ->
          half_to_float (at_index (x a) i) = S754_nan) :
  compare_halfvecs (Some a) (Some b) = inr 0.
Proof.
  unfold compare_halfvecs. rewrite Hdim, Z.eqb_refl. cbn [negb]. f_equal.
  rewrite <- Hdim. revert Hnan.
  induction (indices (dim a)) as [|i rest IH]; intros Hnan; [reflexivity|].
  cbn [compare_elements]. rewrite (Hnan i (or_introl eq_refl)).
  replace (SFltb (half_to_float (at_index (x b) i)) S754_nan) with false
    by (now destruct (half_to_float (at_index (x b) i))).
  cbn. apply IH. intros j Hj. apply Hnan. now right.
Qed.

Lemma compare_halfvecs_nan_equal_witness :
  compare_halfvecs (Some (MkHalfVector 0 2 0 [0x7e00; 0xfe00]))
    (Some (MkHalfVector 0 2 0 [0x3c00; 0xc000])) = inr 0.
Proof.
  apply (compare_halfvecs_nan_equal (MkHalfVector 0 2 0 [0x7e00; 0xfe00])
           (MkHalfVector 0 2 0 [0x3c00; 0xc000]) eq_refl).
  intros i [<-|[<-|[]]]; reflexivity.
Defined.

End HalfVec.

(** * Dense vectors ([vector.hpp]: class [Vector]) *)

(** The value of an integer narrowed to [int16_t]: its low 16 bits, read
    as a signed number. *)
Definition to_int16 (z : Z) : Z :=
  let w := z mod 2 ^ 16 in
  if w <? 2 ^ 15 then w else w - 2 ^ 16.

Module Vec.

Inductive std_exn : Type :=
| invalid_argument (what : String.string).

(** The members of a [Vector]; [x] is the floats the pointer [x] points
    at, or [None] for [nullptr]. *)
Record Vector := MkVector {
  vl_len_ : Z; dim : Z; unused : Z; x : option (list Float32.float) }.

Definition VECTOR_MAX_DIM : Z := 16000.

(** The constructor: the member [dim] is initialised from [dimensions] by
    narrowing to [int16_t], and the checks read the member. *)
Definition Vector_new (dimensions : Z) : std_exn + Vector :=
  let dim := to_int16 dimensions in
  if dim <=? 0 then inl (invalid_argument "Vector dimensions must be positive")
  else if VECTOR_MAX_DIM <? dim then
    inl (invalid_argument "Vector dimensions cannot exceed 16000")
  else inr (MkVector 0 dim 0 None).

(** The loop of [operator==] over the two arrays. *)
Fixpoint elements_equal (ax bx : list Float32.float) (idx : list nat) : bool :=
  match idx with
  | [] => true
  | i :: rest =>
      if negb (Float32.eqb (nth i ax Float32.zero) (nth i bx Float32.zero))
      then false
      else elements_equal ax bx rest
  end.

(** [Vector::operator==] on two vectors whose [x] point at [ax] and [bx]. *)
Definition Vector_eq (v : Vector) (ax : list Float32.float)
  (w : Vector) (bx : list Float32.float) : bool :=
  if negb (dim v =? dim w) then false
  else elements_equal ax bx (seq 0 (Z.to_nat (dim v))).

Lemma to_int16_range (z : Z) : - 2 ^ 15 <= to_int16 z < 2 ^ 15.
Proof.
  unfold to_int16. cbv zeta. change (2 ^ 16) with 65536. change (2 ^ 15) with 32768.
  destruct (Z.ltb_spec (z mod 65536) 32768); Z.div_mod_to_equations; lia.
Qed.

Lemma to_int16_small (z : Z) : - 2 ^ 15 <= z < 2 ^ 15 -> to_int16 z = z.
Proof.
  unfold to_int16. cbv zeta. change (2 ^ 16) with 65536. change (2 ^ 15) with 32768.
  intros H. destruct (Z.ltb_spec (z mod 65536) 32768); Z.div_mod_to_equations; lia.
Qed.

Lemma to_int16_periodic (z k : Z) : to_int16 (z + 2 ^ 16 * k) = to_int16 z.
Proof.
  unfold to_int16. now rewrite (Z.mul_comm (2 ^ 16) k), Z.mod_add by discriminate.
Qed.

(** The constructor judges the dimension after narrowing it to 16 bits: it
    succeeds exactly when the narrowed value is in 1..16000 and stores that
    value, so two arguments that differ by a multiple of 65536 are treated
    alike; within the [int16_t] range it accepts exactly 1..16000. *)
Theorem Vector_new_narrows (dimensions : Z) :
  ((exists v, Vector_new dimensions = inr v) <-> 1 <= to_int16 dimensions <= 16000)
  /\ (forall v, Vector_new dimensions = inr v ->
      dim v = to_int16 dimensions /\ x v = None)
  /\ (forall k, Vector_new (dimensions + 2 ^ 16 * k) = Vector_new dimensions)
  /\ (- 2 ^ 15 <= dimensions < 2 ^ 15 ->
      ((exists v, Vector_new dimensions = inr v) <-> 1 <= dimensions <= 16000)).
Proof.
  assert (Hiff : (exists v, Vector_new dimensions = inr v)
                 <-> 1 <= to_int16 dimensions <= 16000).
  { unfold Vector_new, VECTOR_MAX_DIM. cbv zeta.
    destruct (Z.leb_spec (to_int16 dimensions) 0);
      [split; [intros [v Hv]; discriminate | lia]|].
    destruct (Z.ltb_spec 16000 (to_int16 dimensions));
      [split; [intros [v Hv]; discriminate | lia]|].
    split; [lia | intros _; eexists; reflexivity]. }
  split; [exact Hiff|]. split; [|split].
  - unfold Vector_new, VECTOR_MAX_DIM. cbv zeta. intros v.
    destruct (_ <=? 0); [discriminate|]. destruct (16000 <? _); [discriminate|].
    intros H. injection H as <-. split; reflexivity.
  - intros k. unfold Vector_new. now rewrite to_int16_periodic.
  - intros Hr. now rewrite Hiff, (to_int16_small dimensions Hr).
Qed.

(** Two equal vectors have the same dimension; [operator==] gives the same
    answer with its operands exchanged; and a vector equals itself exactly
    when none of its [dim] elements is a NaN. *)
Theorem Vector_eq_properties
  (v w : Vector) (ax bx : list Float32.float) :
  Vector_eq w bx v ax = Vector_eq v ax w bx
  /\ (Vector_eq v ax w bx = true -> dim v = dim w)
  /\ (Vector_eq v ax v ax = true <->
      forall i, In i (seq 0 (Z.to_nat (dim v))) -> nth i ax Float32.zero <> S754_nan).
Proof.
  split; [|split].
  - unfold Vector_eq. rewrite (Z.eqb_sym (dim w) (dim v)).
    destruct (Z.eqb_spec (dim v) (dim w)) as [E|E]; cbn [negb]; [|reflexivity].
    rewrite E. induction (seq 0 (Z.to_nat (dim w))) as [|i rest IH]; [reflexivity|].
    cbn [elements_equal]. unfold Float32.eqb.
    now rewrite (SFeqb_sym (nth i ax Float32.zero) (nth i bx Float32.zero)), IH.
  - unfold Vector_eq. destruct (Z.eqb_spec (dim v) (dim w)); [tauto | discriminate].
  - unfold Vector_eq. rewrite Z.eqb_refl. cbn [negb].
    induction (seq 0 (Z.to_nat (dim v))) as [|i rest IH].
    + split; [intros _ i [] | reflexivity].
    + cbn [elements_equal]. unfold Float32.eqb. rewrite SFeqb_self, Bool.negb_involutive.
      destruct (sf_eqb (nth i ax Float32.zero) S754_nan) eqn:E.
      * apply sf_eqb_eq in E. split; [discriminate|].
        intros H. exfalso. apply (H i); [now left | exact E].
      * rewrite IH. split.
        -- intros H j [<-|Hj]; [|now apply H].
           intros En. apply sf_eqb_eq in En. congruence.
        -- intros H j Hj. apply H. now right.
Qed.

End Vec.

(** * Sparse vectors ([sparsevec.hpp]: class [SparseVector]) *)

Module SparseVec.

(** A [SparseVector] in memory: the four header fields (16 bytes), then
    the 32-bit words that follow the header.  [indices[pos]] is the word
    [pos] after the header; [getValues()] points
    [sizeof(SparseVector) + nnz * sizeof(int32_t)] bytes into the object,
    so [getValues()[pos]] is the word [nnz + pos].  A [float] in memory is
    its 32-bit pattern. *)
Record SparseVector := MkSparseVector {
  vl_len_ : Z; dim : Z; nnz : Z; unused : Z; words : list Z }.

Inductive std_exn : Type :=
| out_of_range (what : String.string).

(** The word [i] of the storage, and the storage with the word [i]
    replaced. *)
Definition word_at (v : SparseVector) (i : Z) : Z := nth (Z.to_nat i) (words v) 0.

Fixpoint replace_nth (l : list Z) (i : nat) (w : Z) : list Z :=
  match l, i with
  | [], _ => []
  | _ :: t, O => w :: t
  | h :: t, S j => h :: replace_nth t j w
  end.

Definition store (v : SparseVector) (i : Z) (w : Z) : SparseVector :=
  MkSparseVector (vl_len_ v) (dim v) (nnz v) (unused v)
    (replace_nth (words v) (Z.to_nat i) w).

Definition getIndex (v : SparseVector) (pos : Z) : std_exn + Z :=
  if (pos <? 0) || (nnz v <=? pos)
  then inl (out_of_range "Index position out of range")
  else inr (word_at v pos).

Definition getValue (v : SparseVector) (pos : Z) : std_exn + Z :=
  if (pos <? 0) || (nnz v <=? pos)
  then inl (out_of_range "Value position out of range")
  else inr (word_at v (nnz v + pos)).

Definition setIndex (v : SparseVector) (pos value : Z) : std_exn + SparseVector :=
  if (pos <? 0) || (nnz v <=? pos)
  then inl (out_of_range "Index position out of range")
  else inr (store v pos value).

Definition setValue (v : SparseVector) (pos value : Z) : std_exn + SparseVector :=
  if (pos <? 0) || (nnz v <=? pos)
  then inl (out_of_range "Value position out of range")
  else inr (store v (nnz v + pos) value).

Lemma nth_replace_nth (l : list Z) (i j : nat) (w : Z) :
  (i < length l)%nat ->
  nth j (replace_nth l i w) 0 = if Nat.eqb j i then w else nth j l 0.
Proof.
  revert i j. induction l as [|h t IH]; intros i j Hi; [cbn in Hi; lia|].
  destruct i as [|i], j as [|j]; cbn [replace_nth nth Nat.eqb]; try reflexivity.
  apply IH. cbn in Hi. lia.
Qed.

Lemma word_at_store (v : SparseVector) (i j w : Z) :
  0 <= i -> 0 <= j -> (Z.to_nat i < length (words v))%nat ->
  word_at (store v i w) j = if j =? i then w else word_at v j.
Proof.
  intros Hi Hj Hlen. unfold word_at, store. cbn [words].
  rewrite nth_replace_nth by exact Hlen.
  destruct (Z.eqb_spec j i) as [->|Hne].
  - now rewrite Nat.eqb_refl.
  - destruct (Nat.eqb_spec (Z.to_nat j) (Z.to_nat i)); [lia | reflexivity].
Qed.

(** On a vector whose storage holds its [nnz] indices and [nnz] values, at
    a position from 0 to [nnz - 1]: an index or a value that was set is the
    one read back; setting an index changes no other index and no value;
    setting a value changes no other value and no index. *)
Theorem set_then_get (v : SparseVector) (pos value : Z)
  (Hlen : Z.of_nat (length (words v)) = 2 * nnz v)
  (Hpos : 0 <= pos < nnz v) :
  (exists v', setIndex v pos value = inr v'
     /\ getIndex v' pos = inr value
     /\ (forall q, q <> pos -> getIndex v' q = getIndex v q)
     /\ (forall q, getValue v' q = getValue v q))
  /\ (exists v', setValue v pos value = inr v'
      /\ getValue v' pos = inr value
      /\ (forall q, q <> pos -> getValue v' q = getValue v q)
      /\ (forall q, getIndex v' q = getIndex v q)).
Proof.
  unfold setIndex, setValue.
  destruct (Z.ltb_spec pos 0); [lia|]. destruct (Z.leb_spec (nnz v) pos); [lia|].
  cbn [orb]. split; eexists; (split; [reflexivity|]); unfold getIndex, getValue;
    cbn [store nnz]; (split; [|split]).
  - destruct (Z.ltb_spec pos 0); [lia|]. destruct (Z.leb_spec (nnz v) pos); [lia|].
    cbn [orb]. rewrite word_at_store by lia. now rewrite Z.eqb_refl.
  - intros q Hq. destruct (Z.ltb_spec q 0); [reflexivity|].
    destruct (Z.leb_spec (nnz v) q); [reflexivity|]. cbn [orb].
    rewrite word_at_store by lia. destruct (Z.eqb_spec q pos); [lia | reflexivity].
  - intros q. destruct (Z.ltb_spec q 0); [reflexivity|].
    destruct (Z.leb_spec (nnz v) q); [reflexivity|]. cbn [orb].
    rewrite word_at_store by lia. destruct (Z.eqb_spec (nnz v + q) pos); [lia | reflexivity].
  - destruct (Z.ltb_spec pos 0); [lia|]. destruct (Z.leb_spec (nnz v) pos); [lia|].
    cbn [orb]. rewrite word_at_store by lia. now rewrite Z.eqb_refl.
  - intros q Hq. destruct (Z.ltb_spec q 0); [reflexivity|].
    destruct (Z.leb_spec (nnz v) q); [reflexivity|]. cbn [orb].
    rewrite word_at_store by lia.
    destruct (Z.eqb_spec (nnz v + q) (nnz v + pos)); [lia | reflexivity].
  - intros q. destruct (Z.ltb_spec q 0); [reflexivity|].
    destruct (Z.leb_spec (nnz v) q); [reflexivity|]. cbn [orb].
    rewrite word_at_store by lia. destruct (Z.eqb_spec q (nnz v + pos)); [lia | reflexivity].
Qed.

Lemma set_then_get_witness :
  exists v', setValue (MkSparseVector 0 10 2 0 [3; 7; 0; 0]) 1 0x3f800000 = inr v'
    /\ getValue v' 1 = inr 0x3f800000
    /\ (forall q, q <> 1 -> getValue v' q = getValue (MkSparseVector 0 10 2 0 [3; 7; 0; 0]) q)
    /\ (forall q, getIndex v' q = getIndex (MkSparseVector 0 10 2 0 [3; 7; 0; 0]) q).
Proof.
  refine (proj2 (set_then_get (MkSparseVector 0 10 2 0 [3; 7; 0; 0]) 1 0x3f800000
                   eq_refl _)).
  split; [discriminate | reflexivity].
Defined.

(** Outside the positions 0 to [nnz - 1] the four accessors throw
    [std::out_of_range] and touch nothing; with [nnz] zero or negative
    (the constructor checks neither field) every position is outside. *)
Theorem accessors_reject_out_of_range (v : SparseVector) (pos value : Z)
  (Hpos : pos < 0 \/ nnz v <= pos \/ nnz v <= 0) :
  getIndex v pos = inl (out_of_range "Index position out of range")
  /\ getValue v pos = inl (out_of_range "Value position out of range")
  /\ setIndex v pos value = inl (out_of_range "Index position out of range")
  /\ setValue v pos value = inl (out_of_range "Value position out of range").
Proof.
  unfold getIndex, getValue, setIndex, setValue.
  destruct (Z.ltb_spec pos 0); [repeat split; reflexivity|].
  destruct (Z.leb_spec (nnz v) pos); [repeat split; reflexivity|]. lia.
Qed.

Lemma accessors_reject_out_of_range_witness :
  getIndex (MkSparseVector 0 10 (-1) 0 []) 0
  = inl (out_of_range "Index position out of range").
Proof.
  refine (proj1 (accessors_reject_out_of_range (MkSparseVector 0 10 (-1) 0 []) 0 0 _)).
  right. right. discriminate.
Defined.

End SparseVec.
